(** * Car Parts Classification (app.py): a shallow embedding and its properties

    The development follows [app.py] top to bottom: the label set and the
    description table, the predictor, the preprocessor, the camera probe,
    the cached model loader and the session controller [main].

    Conventions.
    - A Python list is a [list]; [l[i]] is stdpp's [l !! i], and the
      [IndexError] Python raises out of range is written out.
    - A Python [dict] with string keys is a [gmap string _].
    - float32 values that are not NaN are modelled by exact rationals [Q];
      comparisons ([np.argmax]) are then the comparisons of [Q].
    - A call that may raise returns [exn + A]; code that also touches the
      screen, the file system or the camera threads a [World]. *)

From Stdlib Require Import ZArith QArith Qround Lqa Lia List.
From stdpp Require Import base option list strings gmap.

Local Open Scope string_scope.
Local Open Scope list_scope.

(** ** Exceptions *)

Inductive exn : Type :=
| IndexError
| ValueError
| CvError (msg : string)
| InvalidArgumentError (msg : string)
| OSError (msg : string)
| DownloadError (msg : string)
| LoadError (msg : string)
| StreamlitAPIException (msg : string)
| RuntimeFailure (msg : string).

(** [str(e)] *)
Definition exn_str (e : exn) : string :=
  match e with
  | IndexError => "list index out of range"
  | ValueError => "attempt to get argmax of an empty sequence"
  | CvError m | InvalidArgumentError m | OSError m
  | DownloadError m | LoadError m | StreamlitAPIException m
  | RuntimeFailure m => m
  end.

Definition result (A : Type) : Type := exn + A.
Definition Ok {A} (a : A) : result A := inr a.
Definition Raise {A} (e : exn) : result A := inl e.

Definition rbind {A B} (m : result A) (k : A → result B) : result B :=
  match m with
  | inl e => inl e
  | inr a => k a
  end.

Notation "'let!' x ':=' m 'in' k" := (rbind m (fun x => k))
  (at level 10, x name, m at level 100, k at level 200, only parsing).

(** [l[i]] on a Python list, for an index that is not negative. *)
Definition py_index {A} (l : list A) (i : nat) : result A :=
  match l !! i with
  | Some a => Ok a
  | None => Raise IndexError
  end.

(** ** The label set and the description table (lines 30-47) *)

Definition class_names : list string := [
    "AIR COMPRESSOR"; "ALTERNATOR"; "BATTERY"; "BRAKE CALIPER"; "BRAKE PAD";
    "BRAKE ROTOR"; "CAMSHAFT"; "CARBERATOR"; "CLUTCH PLATE"; "COIL SPRING";
    "CRANKSHAFT"; "CYLINDER HEAD"; "DISTRIBUTOR"; "ENGINE BLOCK"; "ENGINE VALVE";
    "FUEL INJECTOR"; "FUSE BOX"; "GAS CAP"; "HEADLIGHTS"; "IDLER ARM";
    "IGNITION COIL"; "INSTRUMENT CLUSTER"; "LEAF SPRING"; "LOWER CONTROL ARM";
    "MUFFLER"; "OIL FILTER"; "OIL PAN"; "OIL PRESSURE SENSOR"; "OVERFLOW TANK";
    "OXYGEN SENSOR"; "PISTON"; "PRESSURE PLATE"; "RADIATOR"; "RADIATOR FAN";
    "RADIATOR HOSE"; "RADIO"; "RIM"; "SHIFT KNOB"; "SIDE MIRROR"; "SPARK PLUG";
    "SPOILER"; "STARTER"; "TAILLIGHTS"; "THERMOSTAT"; "TORQUE CONVERTER";
    "TRANSMISSION"; "VACUUM BRAKE BOOSTER"; "VALVE LIFTER"; "WATER PUMP";
    "WINDOW REGULATOR"
  ].

Definition class_info : gmap string string :=
  <["Ignition Coil" := "Description of Ignition Coil."]>
  (<["Leaf Spring" := "Description of Leaf Spring."]> ∅).

Definition no_description : string := "No description available.".

(** [class_info.get(class_name, "No description available.")] (line 101) *)
Definition describe (class_name : string) : string :=
  default no_description (class_info !! class_name).

(** ** The predictor (lines 55-59) *)

(** A batch of images, as [np.expand_dims(img, axis=0)] builds it:
    batch, row, column, channel. *)
Definition Tensor : Type := list (list (list (list Q))).

(** The loaded classifier is opaque: all the program uses is
    [model.predict(img, verbose=0)], which yields one distribution per
    image of the batch, or raises. *)
Record ModelHandle : Type := mkModel {
  model_id : nat;
  model_predict : Tensor → result (list (list Q))
}.

(** [x > best] on floats that are not NaN. *)
Definition Qgtb (x best : Q) : bool := negb (Qle_bool x best).

(** The scan of [np.argmax]: the running maximum is replaced only by a
    strictly greater element, so the first maximal index wins. *)
Fixpoint argmax_scan (l : list Q) (i best_i : nat) (best : Q) : nat :=
  match l with
  | [] => best_i
  | x :: t =>
      if Qgtb x best then argmax_scan t (S i) i x
      else argmax_scan t (S i) best_i best
  end.

(** [np.argmax(a)]; an empty array raises [ValueError]. *)
Definition argmax (a : list Q) : result nat :=
  match a with
  | [] => Raise ValueError
  | x :: t => Ok (argmax_scan t 1 0 x)
  end.

Definition Prediction : Type := (string * Q * list Q)%type.

Definition predict (model : ModelHandle) (img : Tensor) : result Prediction :=
  let! prediction := model_predict model img in
  let! prediction0 := py_index prediction 0 in
  let! predicted_class_idx := argmax prediction0 in
  let! confidence := py_index prediction0 predicted_class_idx in
  let! class_name := py_index class_names predicted_class_idx in
  Ok (class_name, confidence, prediction0).

(** First-occurrence argmax: [i] is a position of [d], no element of [d]
    exceeds [d[i]], and every element before [i] is strictly smaller. *)
Definition first_argmax (d : list Q) (i : nat) : Prop :=
  ∃ m : Q, d !! i = Some m
    ∧ (∀ j x, d !! j = Some x → (x <= m)%Q)
    ∧ (∀ j x, (j < i)%nat → d !! j = Some x → (x < m)%Q).

(** ** The preprocessor (lines 49-53) *)

(** A decoded picture, as [np.array(image)] or [cap.read()] hands it over:
    rows of pixels of [uint8] channels. *)
Definition Image : Type := list (list (list Z)).

(** A float picture: height, width, channel. *)
Definition FImage : Type := list (list (list Q)).

Fixpoint traverse {A B} (f : A → result B) (l : list A) : result (list B) :=
  match l with
  | [] => Ok []
  | a :: t =>
      let! b := f a in
      let! bs := traverse f t in
      Ok (b :: bs)
  end.

(** [cv2.cvtColor(img, cv2.COLOR_BGR2RGB)]: three or four channels come
    in, the first and third swapped come out; anything else is rejected. *)
Definition bgr2rgb_pixel (px : list Z) : result (list Z) :=
  match px with
  | [b; g; r] => Ok [r; g; b]
  | [b; g; r; _] => Ok [r; g; b]
  | _ => Raise (CvError "Invalid number of channels in input image")
  end.

Definition cvtColor_BGR2RGB (img : Image) : result Image :=
  match img with
  | [] => Raise (CvError "(-215:Assertion failed) !_src.empty()")
  | _ => traverse (traverse bgr2rgb_pixel) img
  end.

(** [img[y][x][c]] read as a float. *)
Definition pixel_at (img : Image) (y x : Z) (c : nat) : Q :=
  inject_Z (nth c (nth (Z.to_nat x) (nth (Z.to_nat y) img []) []) 0%Z).

(** The source coordinate of output index [i] (half-pixel centres). *)
Definition half_pixel_scaler (i : nat) (scale : Q) : Q :=
  ((inject_Z (Z.of_nat i) + (1 # 2)) * scale - (1 # 2))%Q.

Record CachedInterpolation : Type := mkInterp {
  lower : Z;
  upper : Z;
  lerp : Q
}.

Definition compute_interpolation_weight (in_size : Z) (scale : Q) (i : nat)
  : CachedInterpolation :=
  let in_ := half_pixel_scaler i scale in
  let in_f := Qfloor in_ in
  {| lower := Z.max in_f 0;
     upper := Z.min (Qceiling in_) (in_size - 1);
     lerp := (in_ - inject_Z in_f)%Q |}.

Definition compute_lerp (top_left top_right bottom_left bottom_right
                         x_lerp y_lerp : Q) : Q :=
  let top := (top_left + (top_right - top_left) * x_lerp)%Q in
  let bottom := (bottom_left + (bottom_right - bottom_left) * x_lerp)%Q in
  (top + (bottom - top) * y_lerp)%Q.

(** [tf.image.resize(img, [out_h, out_w])] with its defaults: bilinear,
    no antialiasing, aspect ratio not preserved, float output. *)
Definition resize (img : Image) (out_h out_w : nat) : result FImage :=
  let in_h := length img in
  let in_w := length (hd [] img) in
  let channels := length (hd [] (hd [] img)) in
  if ((in_h =? 0) || (in_w =? 0))%nat
  then Raise (InvalidArgumentError "input image must be of non-zero size")
  else
    let height_scale := (inject_Z (Z.of_nat in_h) / inject_Z (Z.of_nat out_h))%Q in
    let width_scale := (inject_Z (Z.of_nat in_w) / inject_Z (Z.of_nat out_w))%Q in
    Ok (map (fun y =>
          let ys := compute_interpolation_weight (Z.of_nat in_h) height_scale y in
          map (fun x =>
            let xs := compute_interpolation_weight (Z.of_nat in_w) width_scale x in
            map (fun c =>
              compute_lerp (pixel_at img (lower ys) (lower xs) c)
                           (pixel_at img (lower ys) (upper xs) c)
                           (pixel_at img (upper ys) (lower xs) c)
                           (pixel_at img (upper ys) (upper xs) c)
                           (lerp xs) (lerp ys))
              (seq 0 channels))
            (seq 0 out_w))
          (seq 0 out_h)).

Definition preprocess_image (img : Image) : result Tensor :=
  let! img := cvtColor_BGR2RGB img in
  let! img := resize img 224 224 in
  let img := map (map (map (fun v => (v / 255)%Q))) img in
  Ok [img].

(** A valid input picture: at least one row and one column, every row as
    wide as the first, three channels per pixel, channels in 0..255. *)
Definition valid_pixel (px : list Z) : bool :=
  ((length px =? 3)%nat && forallb (fun v => (0 <=? v)%Z && (v <=? 255)%Z) px).

Definition valid_image (img : Image) : bool :=
  match img with
  | [] => false
  | row0 :: _ =>
      (0 <? length row0)%nat
      && forallb (fun row => (length row =? length row0)%nat
                             && forallb valid_pixel row) img
  end.

(** The shape [(n0, n1, n2, n3)] of a nested array. *)
Definition has_shape (t : Tensor) (n0 n1 n2 n3 : nat) : Prop :=
  length t = n0
  ∧ Forall (fun im => length im = n1
      ∧ Forall (fun row => length row = n2
          ∧ Forall (fun px => length px = n3) row) im) t.

Definition all_values (P : Q → Prop) (t : Tensor) : Prop :=
  Forall (Forall (Forall (Forall P))) t.

(** ** The world the program runs in *)

(** What the page shows, in order of the calls that produced it. *)
Inductive UiEvent : Type :=
| StTitle (s : string)
| StSubheader (s : string)
| StError (s : string)
| StMarkdown (s : string)
| StText (s : string)
| StSpinner (s : string)
| StRadio (label : string)
| StFileUploader (label : string)
| StButton (label : string)
| StEmpty
| StImage (img : Image)
| StPredictedClass (class_name : string)
| StConfidence (confidence : Q)
| StProgress (p : Q)
| StCaption (name : string) (p : Q)
| StFrame (img : Image) (class_name : string) (confidence : Q).

Inductive CamOp : Type :=
| CamOpen (idx : nat) (opened : bool)
| CamRead (idx : nat)
| CamRelease (idx : nat).

Definition Artifact : Type := string.

Record World : Type := mkWorld {
  fs_models_dir : bool;                       (* os.path.exists('models') *)
  fs_model_file : option Artifact;            (* models/best_model.keras *)
  resource_cache : option (option ModelHandle); (* st.cache_resource entry *)
  ui : list UiEvent;
  cam_log : list CamOp;
  downloads : nat;                            (* calls of gdown.download *)
  deserializations : nat                      (* calls of keras load_model *)
}.

Inductive DownloadOutcome : Type :=
| Fetched (a : Artifact)
| NothingWritten
| DownloadRaises (e : exn).

Inductive InputMethod : Type := UploadImage | Webcam.

(** Everything the program cannot decide itself. *)
Record Env : Type := mkEnv {
  os_makedirs : option exn;
  gdown_download : nat → DownloadOutcome;
  keras_load_model : Artifact → result ModelHandle;
  video_capture_opens : nat → bool;
  cap_read : nat → nat → result (option Image);
  stframe_image : nat → option exn;
  sidebar_radio : InputMethod;
  file_uploader : option (result Image);
  start_webcam_clicked : bool;
  stop_webcam_clicked : bool;
  st_empty_raises : option exn;          (* [st.empty()], line 111 *)
  stop_button_raises : option exn        (* [st.button("Stop Webcam")], line 112 *)
}.

(** State, exceptions and divergence.  A raised exception keeps the effects
    that happened before it.  [Running] is the third way a bounded
    observation of a Python program can end: the loop of [main] has not
    left yet when the observation stops. *)
Inductive outcome (A : Type) : Type :=
| Returned (a : A)
| Raised (e : exn)
| Running.
Arguments Returned {A} a.
Arguments Raised {A} e.
Arguments Running {A}.

Definition M (A : Type) : Type := World → outcome A * World.

Definition ret {A} (a : A) : M A := fun w => (Returned a, w).
Definition raise {A} (e : exn) : M A := fun w => (Raised e, w).
Definition lift {A} (r : result A) : M A :=
  fun w => match r with
           | inl e => (Raised e, w)
           | inr a => (Returned a, w)
           end.
Definition bind {A B} (m : M A) (k : A → M B) : M B :=
  fun w => match m w with
           | (Returned a, w') => k a w'
           | (Raised e, w') => (Raised e, w')
           | (Running, w') => (Running, w')
           end.

Notation "'let*' x ':=' m 'in' k" := (bind m (fun x => k))
  (at level 10, x name, m at level 100, k at level 200, only parsing).
Notation "m1 ';;' m2" := (bind m1 (fun _ => m2))
  (at level 100, right associativity, only parsing).

(** [try: body  except Exception as e: handler(e)] *)
Definition try_except {A} (body : M A) (handler : exn → M A) : M A :=
  fun w => match body w with
           | (Raised e, w') => handler e w'
           | other => other
           end.

(** [try: body  finally: cleanup]: the cleanup runs on every way out of
    the body, and the body's outcome is what leaves the statement (unless
    the cleanup itself raises).  A body that is still running has not
    reached its cleanup. *)
Definition try_finally {A} (body : M A) (cleanup : M unit) : M A :=
  fun w => match body w with
           | (Running, w') => (Running, w')
           | (r, w') =>
               match cleanup w' with
               | (Returned _, w'') => (r, w'')
               | (Raised e, w'') => (Raised e, w'')
               | (Running, w'') => (Running, w'')
               end
           end.

Definition add_ui (evs : list UiEvent) (w : World) : World :=
  mkWorld (fs_models_dir w) (fs_model_file w) (resource_cache w)
          (ui w ++ evs) (cam_log w) (downloads w) (deserializations w).

Definition add_cam (ops : list CamOp) (w : World) : World :=
  mkWorld (fs_models_dir w) (fs_model_file w) (resource_cache w)
          (ui w) (cam_log w ++ ops) (downloads w) (deserializations w).

(** A call that puts one element on the page. *)
Definition show (ev : UiEvent) : M unit :=
  fun w => (Returned tt, add_ui [ev] w).

(** A call that puts one element on the page unless the page refuses it:
    [raises] is what the call raises instead, if it does. *)
Definition page_call (raises : option exn) (ev : UiEvent) : M unit :=
  match raises with
  | Some e => fun w => (Raised e, w)
  | None => show ev
  end.

(** [st.progress(value)] with a float: a value outside [0.0, 1.0] is
    refused. *)
Definition st_progress (value : Q) : M unit :=
  if Qle_bool 0 value && Qle_bool value 1
  then show (StProgress value)
  else fun w => (Raised (StreamlitAPIException
                           "Progress Value has invalid value [0.0, 1.0]"), w).

(** A call on the camera driver, logged. *)
Definition cam (op : CamOp) : M unit :=
  fun w => (Returned tt, add_cam [op] w).

(** ** The model loader (lines 15-28) *)

Definition isSome {A} (o : option A) : bool :=
  match o with
  | Some _ => true
  | None => false
  end.

Definition model_path : string := "models/best_model.keras".

Definition makedirs_models (env : Env) : M unit :=
  fun w => match os_makedirs env with
           | Some e => (Raised e, w)
           | None => (Returned tt, mkWorld true (fs_model_file w) (resource_cache w)
                                     (ui w) (cam_log w)
                                     (downloads w) (deserializations w))
           end.

(** [gdown.download(model_url, output=model_path, quiet=True)] *)
Definition download_model (env : Env) : M unit :=
  fun w =>
    let w1 := mkWorld (fs_models_dir w) (fs_model_file w) (resource_cache w)
                      (ui w) (cam_log w) (S (downloads w)) (deserializations w) in
    match gdown_download env (downloads w) with
    | Fetched a => (Returned tt, mkWorld (fs_models_dir w1) (Some a) (resource_cache w1)
                                   (ui w1) (cam_log w1)
                                   (downloads w1) (deserializations w1))
    | NothingWritten => (Returned tt, w1)
    | DownloadRaises e => (Raised e, w1)
    end.

(** [tf.keras.models.load_model(model_path)] *)
Definition tf_load_model (env : Env) : M ModelHandle :=
  fun w =>
    let w1 := mkWorld (fs_models_dir w) (fs_model_file w) (resource_cache w)
                      (ui w) (cam_log w) (downloads w) (S (deserializations w)) in
    match fs_model_file w with
    | None => (Raised (LoadError ("File not found: filepath=" +:+ model_path)), w1)
    | Some a => lift (keras_load_model env a) w1
    end.

(** The [try] block of [load_model]. *)
Definition load_model_try (env : Env) : M (option ModelHandle) :=
  (let* models_exists := (fun w => (Returned (fs_models_dir w), w)) in
   if negb models_exists then makedirs_models env else ret tt) ;;
  (let* file_exists := (fun w => (Returned (isSome (fs_model_file w)), w)) in
   if negb file_exists
   then show (StSpinner "Downloading model... Please wait.") ;; download_model env
   else ret tt) ;;
  let* m := tf_load_model env in
  ret (Some m).

Definition load_model_body (env : Env) : M (option ModelHandle) :=
  try_except (load_model_try env)
    (fun e => show (StError ("Error loading model: " +:+ exn_str e)) ;; ret None).

(** [@st.cache_resource]: the first value the function returns is kept for
    the life of the process and handed out without running the body again.
    Only the value, the disk, the cache and the counters are followed on
    such a later call; what it puts on the page is not. *)
Definition cache_resource (body : M (option ModelHandle)) : M (option ModelHandle) :=
  fun w => match resource_cache w with
           | Some v => (Returned v, w)
           | None =>
               match body w with
               | (Returned v, w') =>
                   (Returned v,
                    mkWorld (fs_models_dir w') (fs_model_file w') (Some v)
                            (ui w') (cam_log w')
                            (downloads w') (deserializations w'))
               | other => other
               end
           end.

Definition load_model (env : Env) : M (option ModelHandle) :=
  cache_resource (load_model_body env).

(** ** The camera probe (lines 61-66) *)

(** [for idx in idxs: cap = cv2.VideoCapture(idx); if cap.isOpened(): return cap] *)
Fixpoint get_webcam_probe (env : Env) (idxs : list nat) : M (option nat) :=
  match idxs with
  | [] => ret None
  | idx :: rest =>
      let opened := video_capture_opens env idx in
      cam (CamOpen idx opened) ;;
      if opened then ret (Some idx) else get_webcam_probe env rest
  end.

Definition get_webcam (env : Env) : M (option nat) :=
  get_webcam_probe env (seq 0 4).

(** ** The session controller (lines 68-131) *)

(** Lines 96-98: one bar and one caption per label, reading
    [all_predictions[i]]. *)
Fixpoint show_probabilities (i : nat) (names : list string)
                            (all_predictions : list Q) : M unit :=
  match names with
  | [] => ret tt
  | name :: rest =>
      let* p := lift (py_index all_predictions i) in
      st_progress p ;;
      show (StCaption name p) ;;
      show_probabilities (S i) rest all_predictions
  end.

(** Lines 80-101. *)
Definition upload_branch (env : Env) (model : ModelHandle) : M unit :=
  show (StFileUploader "Upload a car part image") ;;
  match file_uploader env with
  | None => ret tt
  | Some opened =>
      let* img_array := lift opened in
      show (StImage img_array) ;;
      let* processed_img := lift (preprocess_image img_array) in
      show (StSpinner "Analyzing image...") ;;
      let* p := lift (predict model processed_img) in
      let '(class_name, confidence, all_predictions) := p in
      show (StSubheader "Prediction Results") ;;
      show (StPredictedClass class_name) ;;
      show (StConfidence confidence) ;;
      show (StMarkdown "### Class Probabilities") ;;
      show_probabilities 0 class_names all_predictions ;;
      show (StMarkdown "### Part Description") ;;
      show (StMarkdown (describe class_name))
  end.

(** Lines 116-128: one turn of the loop body; [true] is [break].  [i]
    counts the frames read so far and selects what the camera and the
    page answer this time. *)
Definition frame_step (env : Env) (model : ModelHandle) (cap : nat)
                      (stop_button : bool) (i : nat) : M bool :=
  cam (CamRead cap) ;;
  let* frame := lift (cap_read env cap i) in
  match frame with
  | None => ret true
  | Some frame =>
      let* processed_frame := lift (preprocess_image frame) in
      let* p := lift (predict model processed_frame) in
      let '(class_name, confidence, _) := p in
      let* rgb := lift (cvtColor_BGR2RGB frame) in
      match stframe_image env i with
      | Some e => raise e
      | None => show (StFrame rgb class_name confidence)
      end ;;
      ret stop_button
  end.

(** Line 115: [while not stop_button: ...], observed for at most [fuel]
    turns. *)
Fixpoint webcam_loop (fuel : nat) (env : Env) (model : ModelHandle) (cap : nat)
                     (stop_button : bool) (i : nat) : M unit :=
  if stop_button then ret tt
  else
    match fuel with
    | O => fun w => (Running, w)
    | S fuel' =>
        let* leave := frame_step env model cap stop_button i in
        if (leave : bool) then ret tt
        else webcam_loop fuel' env model cap stop_button (S i)
    end.

(** Lines 114-131. *)
Definition webcam_session (fuel : nat) (env : Env) (model : ModelHandle)
                          (cap : nat) (stop_button : bool) : M unit :=
  try_finally (webcam_loop fuel env model cap stop_button 0)
              (cam (CamRelease cap)).

(** Lines 104-131. *)
Definition webcam_branch (fuel : nat) (env : Env) (model : ModelHandle) : M unit :=
  show (StText "Click the button below to start the webcam.") ;;
  show (StButton "Start Webcam") ;;
  if start_webcam_clicked env then
    let* cap := get_webcam env in
    match cap with
    | None =>
        show (StError "No webcam found. Please ensure it's connected and permissions are granted.")
    | Some cap =>
        page_call (st_empty_raises env) StEmpty ;;
        page_call (stop_button_raises env) (StButton "Stop Webcam") ;;
        let stop_button := stop_webcam_clicked env in
        webcam_session fuel env model cap stop_button
    end
  else ret tt.

Definition main (fuel : nat) (env : Env) : M unit :=
  show (StTitle "Car Parts Classification") ;;
  show (StSubheader "Upload an image or use the webcam to classify car parts") ;;
  let* model := load_model env in
  match model with
  | None => show (StError "Failed to load model. Please refresh the page.")
  | Some model =>
      show (StRadio "Select Input Method:") ;;
      match sidebar_radio env with
      | UploadImage => upload_branch env model
      | Webcam => webcam_branch fuel env model
      end
  end.

(** ** Sample inputs *)

(** A stub classifier that answers every batch with one fixed distribution. *)
Definition stub_model (d : list Q) : ModelHandle :=
  mkModel 0 (fun _ => Ok [d]).

(** Three classes, the maximum reached at positions 1 and 2. *)
Definition tied_distribution : list Q := [1 # 5; 2 # 5; 2 # 5]%Q.

(** A distribution with one entry more than there are labels, its maximum
    in the last place. *)
Definition long_distribution : list Q := repeat 0%Q 50 ++ [1%Q].

(** A 1x2 picture. *)
Definition tiny_image : Image := [[[0; 128; 255]; [255; 3; 17]]]%Z.

(** The picture [[a, b]] of one row and one channel. *)
Definition two_pixels (a b : Z) : Image := [[[a]; [b]]].

(** A process that has not loaded anything yet and whose disk is empty. *)
Definition fresh_world : World := mkWorld false None None [] [] 0 0.

(** The remote file cannot be fetched, no camera opens, nothing is uploaded. *)
Definition offline_env : Env :=
  mkEnv None (fun _ => DownloadRaises (DownloadError "Failed to retrieve file url"))
        (fun _ => Raise (LoadError "file signature not found"))
        (fun _ => false) (fun _ _ => Ok None) (fun _ => None)
        UploadImage None false false None None.

(** The artifact is on disk and loads; camera 2 is the first that opens and
    delivers two frames before the stream ends; the user chose the webcam. *)
Definition camera_env : Env :=
  mkEnv None (fun _ => NothingWritten)
        (fun _ => Ok (stub_model tied_distribution))
        (fun idx => (2 <=? idx)%nat)
        (fun _ i => if (i <? 2)%nat then Ok (Some tiny_image) else Ok None)
        (fun _ => None)
        Webcam None true false None None.

(** A process whose cache already holds a handle. *)
Definition cached_world : World :=
  mkWorld true (Some "keras") (Some (Some (stub_model tied_distribution))) [] [] 0 1.

(** The same environment with other cameras. *)
Definition with_cameras (opens : nat → bool) (env : Env) : Env :=
  mkEnv (os_makedirs env) (gdown_download env) (keras_load_model env)
        opens (cap_read env) (stframe_image env)
        (sidebar_radio env) (file_uploader env)
        (start_webcam_clicked env) (stop_webcam_clicked env)
        (st_empty_raises env) (stop_button_raises env).

(** Whether turn [k] of the loop ends it: the stream is exhausted, or one
    of the calls of the loop body raises. *)
Definition leaves_loop (env : Env) (model : ModelHandle) (cap k : nat) : bool :=
  match cap_read env cap k with
  | inr (Some frame) =>
      match preprocess_image frame with
      | inr t =>
          match predict model t with
          | inr _ => isSome (stframe_image env k)
          | inl _ => true
          end
      | inl _ => true
      end
  | _ => true
  end.

(** ** Vocabulary of the statements *)

(** Value ranges: a [uint8] channel, the same as a float, a normalized
    float. *)
Definition byte_range (v : Z) : Prop := (0 <= v <= 255)%Z.
Definition level_range (q : Q) : Prop := (0 <= q <= 255)%Q.
Definition unit_range (q : Q) : Prop := (0 <= q <= 1)%Q.

(** A pixel after the colour conversion. *)
Definition rgb_pixel (px : list Z) : Prop :=
  length px = 3%nat ∧ Forall byte_range px.

(** The page after the two headings of [main]. *)
Definition title_shown (w : World) : World :=
  add_ui [StSubheader "Upload an image or use the webcam to classify car parts"]
         (add_ui [StTitle "Car Parts Classification"] w).

(** [n] probes that did not open, indices from 0 upwards. *)
Definition failed_probes (n : nat) : list CamOp :=
  map (fun j => CamOpen j false) (seq 0 n).

(** Unfolding the loader down to the world. *)
Ltac run_loader :=
  unfold load_model_body, try_except, load_model_try, bind, makedirs_models,
    download_model, tf_load_model, show, ret, lift, add_ui; simpl.

(** Closing a case of the loop body in which the outcome is settled. *)
Ltac step_done :=
  eexists _, _; split; [reflexivity|];
  repeat split; intros; cbn in *; solve [discriminate | reflexivity | congruence].

(** The sum of a distribution. *)
Definition sumQ (l : list Q) : Q := fold_right Qplus 0%Q l.

(** What [main] puts on the page for the probabilities: a bar and a
    caption per label and value, pairing labels and values in order. *)
Definition probability_rows (names : list string) (ps : list Q) : list UiEvent :=
  flat_map (fun np => [StProgress np.2; StCaption np.1 np.2]) (zip names ps).

(** The part of the world that is not the page and not the camera: disk,
    cache and the counters of downloads and deserializations. *)
Definition machine (w : World)
  : bool * option Artifact * option (option ModelHandle) * nat * nat :=
  (fs_models_dir w, fs_model_file w, resource_cache w,
   downloads w, deserializations w).

(** A computation that leaves the observation [f] of the world alone. *)
Definition preserves {X A} (f : World → X) (m : M A) : Prop :=
  ∀ w, f (m w).2 = f w.

(** What turn [i] of the loop shows when it does not end the loop. *)
Definition frame_event (env : Env) (model : ModelHandle) (cap i : nat)
  : option UiEvent :=
  match cap_read env cap i with
  | inr (Some frame) =>
      match preprocess_image frame, cvtColor_BGR2RGB frame with
      | inr t, inr rgb =>
          match predict model t with
          | inr (class_name, confidence, _) =>
              Some (StFrame rgb class_name confidence)
          | inl _ => None
          end
      | _, _ => None
      end
  | _ => None
  end.

(** A picture with an alpha channel, as a PNG upload may be: four channels
    per pixel, otherwise as [valid_image]. *)
Definition valid_rgba_pixel (px : list Z) : bool :=
  ((length px =? 4)%nat && forallb (fun v => (0 <=? v)%Z && (v <=? 255)%Z) px).

Definition valid_rgba_image (img : Image) : bool :=
  match img with
  | [] => false
  | row0 :: _ =>
      (0 <? length row0)%nat
      && forallb (fun row => (length row =? length row0)%nat
                             && forallb valid_rgba_pixel row) img
  end.

(** A 2x1 picture with an alpha channel. *)
Definition tiny_rgba_image : Image := [[[10; 20; 30; 255]]; [[40; 50; 60; 0]]]%Z.

(** A picture is uploaded and the classifier answers with [d]. *)
Definition upload_env (d : list Q) : Env :=
  mkEnv None (fun _ => NothingWritten) (fun _ => Ok (stub_model d))
        (fun _ => false) (fun _ _ => Ok None) (fun _ => None)
        UploadImage (Some (Ok tiny_image)) false false None None.

(** Fifty equal probabilities. *)
Definition uniform_distribution : list Q := repeat (1 # 50)%Q 50.

(** The ways [main] may use the camera: not at all; four probes that all
    fail; probes up to the first camera that opens, then reads from that
    camera only, then - once the session is over - one release of it; or
    probes up to the first camera that opens and nothing more, the camera
    left open, when [st.empty()] or [st.button("Stop Webcam")] (lines
    111-112, before the [try]) raises. *)
Definition camera_protocol (env : Env) (o : outcome unit) (ops : list CamOp) : Prop :=
  ops = []
  ∨ (ops = failed_probes 4 ∧ ∀ j, (j < 4)%nat → video_capture_opens env j = false)
  ∨ (∃ idx n,
      (idx < 4)%nat
      ∧ video_capture_opens env idx = true
      ∧ ops = failed_probes idx ++ [CamOpen idx true] ++ repeat (CamRead idx) n
              ++ match o with
                 | Running => []
                 | _ => [CamRelease idx]
                 end)
  ∨ (∃ idx e,
      (idx < 4)%nat
      ∧ video_capture_opens env idx = true
      ∧ o = Raised e
      ∧ (st_empty_raises env = Some e
         ∨ (st_empty_raises env = None ∧ stop_button_raises env = Some e))
      ∧ ops = failed_probes idx ++ [CamOpen idx true]).

(** Camera 0 opens, and the Stop button cannot be put on the page. *)
Definition leaking_env : Env :=
  mkEnv None (fun _ => NothingWritten)
        (fun _ => Ok (stub_model tied_distribution))
        (fun _ => true) (fun _ _ => Ok None) (fun _ => None)
        Webcam None true false
        None (Some (StreamlitAPIException "DuplicateWidgetID")).

(** Unfolding the cached loader down to the world. *)
Ltac run_load_model :=
  unfold load_model, cache_resource; run_loader.

(** Two pictures of one shape that agree on channel [c] everywhere. *)
Definition same_channel (c : nat) (img1 img2 : Image) : Prop :=
  Forall2 (Forall2 (fun px1 px2 : list Z => px1 !! c = px2 !! c)) img1 img2.

(** Two tensors of one shape that agree on channel [c] everywhere. *)
Definition same_channel_tensor (c : nat) (t1 t2 : Tensor) : Prop :=
  Forall2 (Forall2 (Forall2 (fun px1 px2 : list Q => px1 !! c = px2 !! c))) t1 t2.

(** [t[0][y][x][c]] *)
Definition tensor_at (t : Tensor) (y x c : nat) : option Q :=
  match t !! 0%nat with
  | Some im =>
      match im !! y with
      | Some row =>
          match row !! x with
          | Some px => px !! c
          | None => None
          end
      | None => None
      end
  | None => None
  end.

(** The picture without what follows its third channel. *)
Definition drop_alpha (img : Image) : Image := map (map (take 3)) img.

(** Two 2x2 pictures with the same blue channel (the first, in OpenCV's
    order) and different green and red channels. *)
Definition bluish_image : Image :=
  [[[10; 0; 255]; [20; 128; 3]]; [[15; 7; 9]; [12; 255; 0]]]%Z.

Definition bluish_image' : Image :=
  [[[10; 200; 1]; [20; 0; 77]]; [[15; 99; 255]; [12; 3; 4]]]%Z.

(** Two pictures that already have the size the classifier expects, with
    the same blue channel. *)
Definition square_image : Image := repeat (repeat [7; 7; 7]%Z 224) 224.

Definition square_image' : Image := repeat (repeat [7; 100; 200]%Z 224) 224.





(** The upload cannot be decoded. *)
Definition broken_upload_env : Env :=
  mkEnv None (fun _ => NothingWritten)
        (fun _ => Ok (stub_model tied_distribution))
        (fun _ => false) (fun _ _ => Ok None) (fun _ => None)
        UploadImage (Some (Raise (OSError "cannot identify image file")))
        false false None None.

(** * Properties *)

(** ** Label set and description table *)

(** C3 (as amended): the label set has exactly 50 entries. *)
Theorem class_names_length : length class_names = 50%nat.
Proof. reflexivity. Qed.

(** C3, as stated, fails: the label set does not have 49 entries. *)
Lemma class_names_length_not_49 : length class_names ≠ 49%nat.
Proof. discriminate. Qed.

Lemma no_description_nonempty : no_description ≠ "".
Proof. discriminate. Qed.

Lemma describe_nonempty (class_name : string) : describe class_name ≠ "".
Proof.
  unfold describe, class_info.
  destruct (decide (class_name = "Ignition Coil")) as [->|Hi]; [done|].
  rewrite lookup_insert_ne by done.
  destruct (decide (class_name = "Leaf Spring")) as [->|Hl]; [done|].
  rewrite lookup_insert_ne by done.
  rewrite lookup_empty. discriminate.
Qed.

(** C9: for a class name that is not a key of the description table, the
    lookup returns the fallback string "No description available."; the
    lookup is a total function and its answer is never the empty string. *)
Theorem describe_absent (class_name : string) :
  class_info !! class_name = None →
  describe class_name = "No description available."
  ∧ describe class_name ≠ "".
Proof.
  intros Habsent. split.
  - unfold describe. rewrite Habsent. reflexivity.
  - apply describe_nonempty.
Qed.

Lemma describe_absent_witness :
  class_info !! "RADIO" = None
  ∧ describe "RADIO" = "No description available."
  ∧ describe "RADIO" ≠ "".
Proof. split; [reflexivity | apply (describe_absent "RADIO"); reflexivity]. Defined.

Lemma class_names_not_described :
  Forall (fun name => class_info !! name = None) class_names.
Proof. unfold class_names. repeat (constructor; [reflexivity|]). constructor. Qed.

Lemma rbind_Ok {A B} (m : result A) (k : A → result B) (b : B) :
  rbind m k = Ok b → ∃ a, m = Ok a ∧ k a = Ok b.
Proof. destruct m as [e|a]; simpl; [discriminate | eauto]. Qed.

Lemma py_index_Ok {A} (l : list A) (i : nat) (a : A) :
  py_index l i = Ok a ↔ l !! i = Some a.
Proof.
  unfold py_index, Ok, Raise. destruct (l !! i); split; congruence.
Qed.

Lemma py_index_lookup {A} (l : list A) (i : nat) (a : A) :
  l !! i = Some a → py_index l i = Ok a.
Proof. apply py_index_Ok. Qed.

(** What a successful [predict] went through. *)
Lemma predict_Ok_inv model img class_name confidence dist :
  predict model img = Ok (class_name, confidence, dist) →
  ∃ prediction idx,
    model_predict model img = Ok prediction
    ∧ prediction !! 0%nat = Some dist
    ∧ argmax dist = Ok idx
    ∧ dist !! idx = Some confidence
    ∧ class_names !! idx = Some class_name.
Proof.
  unfold predict. intros H.
  apply rbind_Ok in H as (prediction & Hm & H).
  apply rbind_Ok in H as (prediction0 & H0 & H).
  apply rbind_Ok in H as (idx & Hidx & H).
  apply rbind_Ok in H as (conf & Hconf & H).
  apply rbind_Ok in H as (name & Hname & H).
  apply py_index_Ok in H0, Hconf, Hname.
  injection H as <- <- <-.
  exists prediction, idx. auto.
Qed.

Lemma predict_in_class_names model img class_name confidence dist :
  predict model img = Ok (class_name, confidence, dist) →
  class_name ∈ class_names.
Proof.
  intros H. apply predict_Ok_inv in H as (_ & idx & _ & _ & _ & _ & Hname).
  eapply list_elem_of_lookup_2. exact Hname.
Qed.

(** C10: every element of the label set is answered with the fallback
    string, because neither key of the table ('Ignition Coil',
    'Leaf Spring') is an element of the label set; hence whatever class
    name [predict] returns gets the fallback and never a text of the table. *)
Theorem predicted_class_never_described :
  Forall (fun name => describe name = "No description available.") class_names
  ∧ ("Ignition Coil" ∉ class_names)
  ∧ ("Leaf Spring" ∉ class_names)
  ∧ ∀ model img class_name confidence dist,
      predict model img = Ok (class_name, confidence, dist) →
      describe class_name = "No description available.".
Proof.
  assert (Hall : Forall (fun name => describe name = no_description) class_names).
  { eapply Forall_impl; [apply class_names_not_described|].
    intros name Hname. apply describe_absent. exact Hname. }
  split; [exact Hall|].
  split; [|split].
  - intros Hin. rewrite Forall_forall in Hall.
    specialize (Hall _ Hin). discriminate Hall.
  - intros Hin. rewrite Forall_forall in Hall.
    specialize (Hall _ Hin). discriminate Hall.
  - intros model img class_name confidence dist Hp.
    rewrite Forall_forall in Hall. apply Hall.
    eapply predict_in_class_names. exact Hp.
Qed.

Lemma predicted_class_never_described_witness :
  predict (stub_model tied_distribution) [] = Ok ("ALTERNATOR", 2 # 5, tied_distribution)%Q
  ∧ describe "ALTERNATOR" = "No description available.".
Proof.
  split; [reflexivity|].
  apply (proj2 (proj2 (proj2 predicted_class_never_described))
           (stub_model tied_distribution) [] "ALTERNATOR" (2 # 5)%Q tied_distribution).
  reflexivity.
Defined.

(** ** The predictor *)

Lemma Qgtb_true (x best : Q) : Qgtb x best = true → (best < x)%Q.
Proof.
  unfold Qgtb. intros H. apply negb_true_iff in H.
  apply Qnot_le_lt. intros Hle. apply Qle_bool_iff in Hle. congruence.
Qed.

Lemma Qgtb_false (x best : Q) : Qgtb x best = false → (x <= best)%Q.
Proof.
  unfold Qgtb. intros H. apply negb_false_iff in H.
  apply Qle_bool_iff. exact H.
Qed.

(** The invariant of the scan: [best] sits at [best_i] in the part already
    seen, bounds that part, and strictly exceeds what comes before
    [best_i]. *)
Lemma argmax_scan_first (l seen : list Q) (best_i : nat) (best : Q) :
  seen !! best_i = Some best →
  (∀ j x, seen !! j = Some x → (x <= best)%Q) →
  (∀ j x, (j < best_i)%nat → seen !! j = Some x → (x < best)%Q) →
  first_argmax (seen ++ l) (argmax_scan l (length seen) best_i best).
Proof.
  revert seen best_i best.
  induction l as [|x t IH]; intros seen best_i best Hbest Hmax Hfirst; simpl.
  - rewrite app_nil_r. exists best. auto.
  - assert (Hlt : (best_i < length seen)%nat) by (eapply lookup_lt_Some; eauto).
    replace (seen ++ x :: t) with ((seen ++ [x]) ++ t)
      by (rewrite <- app_assoc; reflexivity).
    replace (S (length seen)) with (length (seen ++ [x]))
      by (rewrite length_app; simpl; lia).
    destruct (Qgtb x best) eqn:Hcmp.
    + apply Qgtb_true in Hcmp.
      apply IH.
      * rewrite lookup_app_r by lia. rewrite Nat.sub_diag. reflexivity.
      * intros j y Hj. apply lookup_app_Some in Hj as [Hj|[_ Hj]].
        -- apply Qlt_le_weak. eapply Qle_lt_trans; [eapply Hmax; eauto | exact Hcmp].
        -- apply list_lookup_singleton_Some in Hj as [_ <-]. apply Qle_refl.
      * intros j y Hjlt Hj. rewrite lookup_app_l in Hj by lia.
        eapply Qle_lt_trans; [eapply Hmax; eauto | exact Hcmp].
    + apply Qgtb_false in Hcmp.
      apply IH.
      * rewrite lookup_app_l by lia. exact Hbest.
      * intros j y Hj. apply lookup_app_Some in Hj as [Hj|[_ Hj]].
        -- eapply Hmax; eauto.
        -- apply list_lookup_singleton_Some in Hj as [_ <-]. exact Hcmp.
      * intros j y Hjlt Hj. rewrite lookup_app_l in Hj by lia.
        eapply Hfirst; eauto.
Qed.

Lemma argmax_first (x : Q) (t : list Q) :
  first_argmax (x :: t) (argmax_scan t 1 0 x).
Proof.
  apply (argmax_scan_first t [x] 0 x).
  - reflexivity.
  - intros [|j] y Hj; simpl in Hj; [|rewrite lookup_nil in Hj; discriminate].
    injection Hj as <-. apply Qle_refl.
  - intros j y Hj. lia.
Qed.

Lemma first_argmax_lt (d : list Q) (i : nat) :
  first_argmax d i → (i < length d)%nat.
Proof. intros (m & Hm & _). eapply lookup_lt_Some; eauto. Qed.

(** C1: when the classifier answers with a non-empty distribution [dist],
    [predict] takes the index [idx] of the first maximal entry of [dist]
    and returns [class_names[idx]] together with [dist[idx]] and [dist]
    itself: name and confidence come from the same index of the same
    vector.  [class_names[idx]] is Python indexing; it succeeds whenever
    the distribution is not longer than the label set. *)
Theorem predict_first_argmax (model : ModelHandle) (img : Tensor)
                             (dist : list Q) (others : list (list Q)) :
  model_predict model img = Ok (dist :: others) →
  dist ≠ [] →
  ∃ (idx : nat) (confidence : Q),
    first_argmax dist idx
    ∧ dist !! idx = Some confidence
    ∧ predict model img
      = (let! class_name := py_index class_names idx in
         Ok (class_name, confidence, dist))
    ∧ ((length dist ≤ length class_names)%nat →
       ∃ class_name, class_names !! idx = Some class_name
         ∧ predict model img = Ok (class_name, confidence, dist)).
Proof.
  intros Hmodel Hne.
  destruct dist as [|x t]; [congruence|].
  pose proof (argmax_first x t) as Hfirst.
  set (idx := argmax_scan t 1 0 x) in *.
  destruct Hfirst as (m & Hm & Hmax & Hlow).
  assert (Hpredict : predict model img
            = (let! class_name := py_index class_names idx in
               Ok (class_name, m, x :: t))).
  { unfold predict. rewrite Hmodel. simpl rbind.
    fold idx. rewrite (py_index_lookup _ _ _ Hm). reflexivity. }
  exists idx, m. split; [exists m; auto|]. split; [exact Hm|].
  split; [exact Hpredict|].
  intros Hlen.
  assert (Hidx : (idx < length class_names)%nat).
  { apply lookup_lt_Some in Hm. lia. }
  apply lookup_lt_is_Some_2 in Hidx as [name Hname].
  exists name. split; [exact Hname|].
  rewrite Hpredict, (py_index_lookup _ _ _ Hname). reflexivity.
Qed.

Lemma predict_first_argmax_witness :
  ∃ (idx : nat) (confidence : Q),
    first_argmax tied_distribution idx
    ∧ tied_distribution !! idx = Some confidence
    ∧ predict (stub_model tied_distribution) []
      = (let! class_name := py_index class_names idx in
         Ok (class_name, confidence, tied_distribution))
    ∧ ((length tied_distribution ≤ length class_names)%nat →
       ∃ class_name, class_names !! idx = Some class_name
         ∧ predict (stub_model tied_distribution) []
           = Ok (class_name, confidence, tied_distribution)).
Proof.
  apply (predict_first_argmax (stub_model tied_distribution) [] tied_distribution []).
  - reflexivity.
  - discriminate.
Defined.

(** On a tie the lower index is taken: positions 1 and 2 both hold 2/5. *)
Example predict_tie :
  predict (stub_model tied_distribution) []
  = Ok ("ALTERNATOR", (2 # 5)%Q, tied_distribution).
Proof. reflexivity. Qed.

(** A distribution whose first maximum lies beyond the label set makes
    [class_names[idx]] raise. *)
Example predict_beyond_labels :
  predict (stub_model long_distribution) [] = Raise IndexError.
Proof. reflexivity. Qed.

(** An empty distribution makes [np.argmax] raise. *)
Example predict_empty_distribution :
  predict (stub_model []) [] = Raise ValueError.
Proof. reflexivity. Qed.

(** ** The preprocessor *)

Lemma traverse_Forall {A B} (f : A → result B) (P : B → Prop) (l : list A) :
  Forall (fun a => ∃ b, f a = Ok b ∧ P b) l →
  ∃ bs, traverse f l = Ok bs ∧ length bs = length l ∧ Forall P bs.
Proof.
  induction 1 as [|a t (b & Hb & HP) _ (bs & Hbs & Hlen & HPs)]; simpl.
  - exists []. auto.
  - exists (b :: bs). rewrite Hb, Hbs. simpl. auto.
Qed.

Lemma valid_pixel_spec (px : list Z) :
  valid_pixel px = true → length px = 3%nat ∧ Forall byte_range px.
Proof.
  unfold valid_pixel. intros H. apply andb_true_iff in H as [Hlen Hall].
  apply Nat.eqb_eq in Hlen. split; [exact Hlen|].
  apply Forall_forall. intros v Hv.
  rewrite forallb_forall in Hall. apply list_elem_of_In in Hv.
  specialize (Hall v Hv). unfold byte_range. lia.
Qed.

Lemma bgr2rgb_pixel_valid (px : list Z) :
  valid_pixel px = true →
  ∃ px', bgr2rgb_pixel px = Ok px'
         ∧ length px' = 3%nat ∧ Forall byte_range px'.
Proof.
  intros H. apply valid_pixel_spec in H as [Hlen Hall].
  destruct px as [|b [|g [|r [|? ?]]]]; try discriminate Hlen.
  exists [r; g; b]. split; [reflexivity|]. split; [reflexivity|].
  inversion Hall as [|? ? Hb Hall1]; subst.
  inversion Hall1 as [|? ? Hg Hall2]; subst.
  inversion Hall2 as [|? ? Hr _]; subst.
  auto using Forall_cons, Forall_nil.
Qed.

(** On a valid picture the colour conversion succeeds and keeps the
    height, the width, the three channels and the value range. *)
Lemma cvtColor_valid (img : Image) :
  valid_image img = true →
  ∃ rgb, cvtColor_BGR2RGB img = Ok rgb
    ∧ length rgb = length img
    ∧ Forall (fun row => length row = length (hd [] img)
                         ∧ Forall rgb_pixel row) rgb.
Proof.
  intros Hv. destruct img as [|row0 rows]; [discriminate|].
  unfold valid_image in Hv. apply andb_true_iff in Hv as [_ Hrows].
  unfold cvtColor_BGR2RGB.
  apply (traverse_Forall (traverse bgr2rgb_pixel)
           (fun row => length row = length row0 ∧ Forall rgb_pixel row)).
  apply Forall_forall. intros row Hrow.
  rewrite forallb_forall in Hrows. apply list_elem_of_In in Hrow.
  specialize (Hrows row Hrow). apply andb_true_iff in Hrows as [Hlen Hpx].
  apply Nat.eqb_eq in Hlen.
  destruct (traverse_Forall bgr2rgb_pixel rgb_pixel row) as (row' & Hrow' & Hl & Hall).
  { apply Forall_forall. intros px Hin.
    rewrite forallb_forall in Hpx. apply list_elem_of_In in Hin.
    apply bgr2rgb_pixel_valid. auto. }
  exists row'. split; [exact Hrow'|]. split; [congruence | exact Hall].
Qed.

Lemma nth_Forall_default {A} (P : A → Prop) (l : list A) (d : A) (i : nat) :
  Forall P l → P d → P (nth i l d).
Proof.
  intros Hall Hd. revert i.
  induction Hall as [|a t Ha _ IH]; intros [|i]; simpl; auto.
Qed.

Lemma pixel_at_range (img : Image) (y x : Z) (c : nat) :
  Forall (Forall (Forall byte_range)) img → level_range (pixel_at img y x c).
Proof.
  intros Hall. unfold pixel_at, level_range.
  assert (Hb : byte_range (nth c (nth (Z.to_nat x) (nth (Z.to_nat y) img []) []) 0%Z)).
  { apply nth_Forall_default; [|unfold byte_range; lia].
    apply nth_Forall_default; [|constructor].
    apply nth_Forall_default; [exact Hall|constructor]. }
  destruct Hb as [Hlo Hhi]. split.
  - change 0%Q with (inject_Z 0). rewrite <- Zle_Qle. exact Hlo.
  - change 255%Q with (inject_Z 255). rewrite <- Zle_Qle. exact Hhi.
Qed.

Lemma lerp_unit_range (in_size : Z) (scale : Q) (i : nat) :
  unit_range (lerp (compute_interpolation_weight in_size scale i)).
Proof.
  unfold compute_interpolation_weight, unit_range. cbn [lerp].
  generalize (half_pixel_scaler i scale). intros q.
  pose proof (Qfloor_le q) as Hlo.
  pose proof (Qlt_floor q) as Hhi.
  rewrite inject_Z_plus in Hhi. change (inject_Z 1) with 1%Q in Hhi.
  split; lra.
Qed.

(** Interpolation is a convex combination: it stays between the bounds
    of the four values it mixes. *)
Lemma compute_lerp_range (tl tr bl br x_lerp y_lerp : Q) :
  level_range tl → level_range tr → level_range bl → level_range br →
  unit_range x_lerp → unit_range y_lerp →
  level_range (compute_lerp tl tr bl br x_lerp y_lerp).
Proof.
  unfold level_range, unit_range, compute_lerp.
  intros [? ?] [? ?] [? ?] [? ?] [? ?] [? ?].
  assert (Htop : (0 <= tl + (tr - tl) * x_lerp <= 255)%Q) by (split; nra).
  assert (Hbot : (0 <= bl + (br - bl) * x_lerp <= 255)%Q) by (split; nra).
  destruct Htop, Hbot. split; nra.
Qed.

Lemma scale_unit_range (v : Q) : level_range v → unit_range (v / 255).
Proof.
  unfold level_range, unit_range. intros [Hlo Hhi].
  split.
  - apply Qle_shift_div_l; [reflexivity | lra].
  - apply Qle_shift_div_r; [reflexivity | lra].
Qed.

Lemma length_map_seq {A} (f : nat → A) (n : nat) : length (map f (seq 0 n)) = n.
Proof. rewrite length_map, length_seq. reflexivity. Qed.

Lemma Forall_map_seq {A} (P : A → Prop) (f : nat → A) (n : nat) :
  (∀ i, P (f i)) → Forall P (map f (seq 0 n)).
Proof. intros H. apply Forall_map, Forall_forall. intros i _. apply H. Qed.

(** [resize] of a picture with at least one pixel yields [out_h] rows of
    [out_w] pixels with the channels of the input, every value between the
    bounds of the input values. *)
Lemma resize_range (img : Image) (out_h out_w : nat) :
  length img ≠ 0%nat → length (hd [] img) ≠ 0%nat →
  Forall (Forall (Forall byte_range)) img →
  ∃ out, resize img out_h out_w = Ok out
    ∧ length out = out_h
    ∧ Forall (fun row => length row = out_w
        ∧ Forall (fun px => length px = length (hd [] (hd [] img))
                            ∧ Forall level_range px) row) out.
Proof.
  intros Hh Hw Hall. unfold resize.
  apply Nat.eqb_neq in Hh, Hw. rewrite Hh, Hw. simpl orb. cbv iota.
  eexists. split; [reflexivity|].
  split; [apply length_map_seq|].
  apply Forall_map_seq. intros y.
  split; [apply length_map_seq|].
  apply Forall_map_seq. intros x.
  split; [apply length_map_seq|].
  apply Forall_map_seq. intros c.
  apply compute_lerp_range;
    solve [apply pixel_at_range; exact Hall | apply lerp_unit_range].
Qed.

Lemma valid_image_first_row (img : Image) :
  valid_image img = true →
  length img ≠ 0%nat ∧ length (hd [] img) ≠ 0%nat.
Proof.
  destruct img as [|row0 rows]; [discriminate|].
  unfold valid_image. intros H. apply andb_true_iff in H as [Hw _].
  apply Nat.ltb_lt in Hw. simpl. lia.
Qed.

(** C2: for every valid picture (at least one pixel, rows of equal width,
    three channels, channel values 0..255), whatever its height and width,
    [preprocess_image] returns a tensor of shape (1, 224, 224, 3) whose
    every element lies in [0, 1]. *)
Theorem preprocess_image_shape_range (img : Image) :
  valid_image img = true →
  ∃ t : Tensor,
    preprocess_image img = Ok t
    ∧ has_shape t 1 224 224 3
    ∧ all_values (fun v => 0 <= v <= 1)%Q t.
Proof.
  intros Hvalid.
  destruct (valid_image_first_row img Hvalid) as [Hh Hw].
  destruct (cvtColor_valid img Hvalid) as (rgb & Hrgb & Hlen & Hrows).
  assert (Hh' : length rgb ≠ 0%nat) by lia.
  destruct rgb as [|r0 rs]; [simpl in Hh'; lia|].
  assert (Hr0 : length r0 = length (hd [] img) ∧ Forall rgb_pixel r0)
    by (inversion Hrows; assumption).
  destruct Hr0 as [Hr0len Hr0px].
  assert (Hw' : length (hd [] (r0 :: rs)) ≠ 0%nat) by (simpl; lia).
  assert (Hch : length (hd [] (hd [] (r0 :: rs))) = 3%nat).
  { simpl. destruct r0 as [|p0 ps]; [simpl in Hw'; lia|].
    inversion Hr0px as [|? ? [Hp _] _]; subst. exact Hp. }
  assert (Hbytes : Forall (Forall (Forall byte_range)) (r0 :: rs)).
  { eapply Forall_impl; [exact Hrows|]. intros row [_ Hpx].
    eapply Forall_impl; [exact Hpx|]. intros px [_ Hb]. exact Hb. }
  destruct (resize_range (r0 :: rs) 224 224 Hh' Hw' Hbytes)
    as (out & Hout & Houtlen & Houtrows).
  rewrite Hch in Houtrows.
  exists [map (map (map (fun v => (v / 255)%Q))) out].
  split; [|split].
  - unfold preprocess_image. rewrite Hrgb. simpl rbind. rewrite Hout. reflexivity.
  - split; [reflexivity|]. constructor; [|constructor].
    split; [rewrite length_map; exact Houtlen|].
    apply Forall_map. eapply Forall_impl; [exact Houtrows|].
    intros row [Hrl Hpx]. simpl.
    split; [rewrite length_map; exact Hrl|].
    apply Forall_map. eapply Forall_impl; [exact Hpx|].
    intros px [Hpl _]. simpl. rewrite length_map. exact Hpl.
  - constructor; [|constructor].
    apply Forall_map. eapply Forall_impl; [exact Houtrows|].
    intros row [_ Hpx]. simpl.
    apply Forall_map. eapply Forall_impl; [exact Hpx|].
    intros px [_ Hv]. simpl.
    apply Forall_map. eapply Forall_impl; [exact Hv|].
    intros v Hrange. apply scale_unit_range. exact Hrange.
Qed.

Lemma preprocess_image_shape_range_witness :
  valid_image tiny_image = true
  ∧ ∃ t : Tensor,
      preprocess_image tiny_image = Ok t
      ∧ has_shape t 1 224 224 3
      ∧ all_values (fun v => 0 <= v <= 1)%Q t.
Proof.
  split; [reflexivity|].
  apply (preprocess_image_shape_range tiny_image). reflexivity.
Defined.

(** The rows and columns the interpolation reads exist: the default of
    [pixel_at] is never what is read. *)
Lemma interpolation_in_bounds (in_size out_size i : nat) :
  (0 < in_size)%nat → (i < out_size)%nat →
  let w := compute_interpolation_weight (Z.of_nat in_size)
             (inject_Z (Z.of_nat in_size) / inject_Z (Z.of_nat out_size)) i in
  (0 <= lower w < Z.of_nat in_size)%Z ∧ (0 <= upper w < Z.of_nat in_size)%Z.
Proof.
  intros Hin Hi. unfold compute_interpolation_weight. cbn [lower upper].
  set (s := (inject_Z (Z.of_nat in_size) / inject_Z (Z.of_nat out_size))%Q).
  assert (Hout : (0 < inject_Z (Z.of_nat out_size))%Q).
  { change 0%Q with (inject_Z 0). rewrite <- Zlt_Qlt. lia. }
  assert (Hinq : (1 <= inject_Z (Z.of_nat in_size))%Q).
  { change 1%Q with (inject_Z 1). rewrite <- Zle_Qle. lia. }
  assert (Hiq : (inject_Z (Z.of_nat i) + 1 <= inject_Z (Z.of_nat out_size))%Q).
  { change 1%Q with (inject_Z 1). rewrite <- inject_Z_plus, <- Zle_Qle. lia. }
  assert (Hi0 : (0 <= inject_Z (Z.of_nat i))%Q).
  { change 0%Q with (inject_Z 0). rewrite <- Zle_Qle. lia. }
  assert (Hs : (s * inject_Z (Z.of_nat out_size) == inject_Z (Z.of_nat in_size))%Q).
  { unfold s. field. lra. }
  assert (Hspos : (0 < s)%Q).
  { unfold s. apply Qlt_shift_div_l; lra. }
  unfold half_pixel_scaler.
  set (q := ((inject_Z (Z.of_nat i) + (1 # 2)) * s - (1 # 2))%Q).
  assert (Hqlo : (-(1) < q)%Q) by (unfold q; nra).
  assert (Hqhi : (q < inject_Z (Z.of_nat in_size))%Q) by (unfold q; nra).
  pose proof (Qfloor_le q) as Hfl.
  pose proof (Qle_ceiling q) as Hce.
  assert (Hfloor : (Qfloor q < Z.of_nat in_size)%Z).
  { rewrite Zlt_Qlt. lra. }
  assert (Hceil : (-1 < Qceiling q)%Z).
  { rewrite Zlt_Qlt. change (inject_Z (-1)) with (-(1))%Q. lra. }
  lia.
Qed.

(** Two pixels stretched to four: the ends are copied, the middle is mixed
    1:3 and 3:1. *)
Example resize_two_pixels :
  (let! out := resize (two_pixels 0 100) 1 4 in Ok (map (map (map Qred)) out))
  = Ok [[[0]; [25]; [75]; [100]]]%Q.
Proof. vm_compute. reflexivity. Qed.

(** ** The model loader *)

(** The [try] block never keeps running, and it returns a handle only when
    an artifact is on disk and deserializes. *)
Lemma load_model_try_outcome (env : Env) (w : World) :
  (∃ e w', load_model_try env w = (Raised e, w'))
  ∨ (∃ m a w', load_model_try env w = (Returned (Some m), w')
       ∧ fs_model_file w' = Some a ∧ keras_load_model env a = Ok m).
Proof.
  destruct w as [dir file cache u c d s]. run_loader.
  destruct dir, (os_makedirs env) as [e0|], file as [a|]; simpl; eauto;
    try (destruct (keras_load_model env a) as [e1|m] eqn:?; simpl; eauto 8);
    destruct (gdown_download env d) as [a| |e2]; simpl; eauto;
    destruct (keras_load_model env a) as [e1|m] eqn:?; simpl; eauto 8.
Qed.

(** The body of [load_model] always returns; it leaves the cache alone,
    downloads at most once and deserializes at most once. *)
Lemma load_model_body_returns (env : Env) (w : World) :
  ∃ v w', load_model_body env w = (Returned v, w')
    ∧ resource_cache w' = resource_cache w
    ∧ (downloads w' ≤ S (downloads w))%nat
    ∧ (deserializations w' ≤ S (deserializations w))%nat.
Proof.
  destruct w as [dir file cache u c d s]. run_loader.
  destruct dir, (os_makedirs env) as [e0|], file as [a|]; simpl;
    try (destruct (gdown_download env d) as [a| |e2]; simpl);
    try (destruct (keras_load_model env a) as [e1|m]; simpl);
    do 2 eexists; (split; [reflexivity|]); simpl; repeat split; lia.
Qed.

(** C4: a second call of the model loader returns the very value the
    first call returned and changes nothing: across both calls there is at
    most one download and at most one deserialization. *)
Theorem load_model_twice (env : Env) (w : World) :
  ∃ (handle : option ModelHandle) (w1 : World),
    load_model env w = (Returned handle, w1)
    ∧ load_model env w1 = (Returned handle, w1)
    ∧ (downloads w1 ≤ downloads w + 1)%nat
    ∧ (deserializations w1 ≤ deserializations w + 1)%nat.
Proof.
  unfold load_model, cache_resource.
  destruct (resource_cache w) as [v|] eqn:Hcache.
  - exists v, w. rewrite Hcache. repeat split; lia.
  - destruct (load_model_body_returns env w) as (v & w' & Hbody & _ & Hd & Hs).
    rewrite Hbody. eexists _, _. split; [reflexivity|].
    simpl. repeat split; lia.
Qed.

(** The first call on a fresh process does the work, the second does not:
    here the file is fetched and loaded once. *)
Example load_model_fresh_then_cached :
  let env := with_cameras (fun _ => false) camera_env in
  let env := mkEnv None (fun _ => Fetched "keras") (keras_load_model env)
                   (video_capture_opens env) (cap_read env) (stframe_image env)
                   (sidebar_radio env) (file_uploader env) false false
                   None None in
  let '(h1, w1) := load_model env fresh_world in
  let '(h2, w2) := load_model env w1 in
  h1 = Returned (Some (stub_model tied_distribution))
  ∧ h2 = h1 ∧ w2 = w1
  ∧ downloads w2 = 1%nat ∧ deserializations w2 = 1%nat.
Proof. vm_compute. auto. Qed.

(** A filled cache is answered without touching the disk, the network or
    the deserializer, even where all three would fail. *)
Example load_model_cached :
  load_model offline_env cached_world
  = (Returned (Some (stub_model tied_distribution)), cached_world).
Proof. reflexivity. Qed.

(** A missing artifact that the download does not deliver makes the [try]
    block raise; so does an artifact that does not deserialize. *)
Lemma load_model_try_missing (env : Env) (w : World) :
  fs_model_file w = None →
  (∀ a, gdown_download env (downloads w) ≠ Fetched a) →
  ∃ e w', load_model_try env w = (Raised e, w').
Proof.
  destruct w as [dir file cache u c d s]. simpl. intros -> Hnot. run_loader.
  destruct dir, (os_makedirs env) as [e0|]; simpl; eauto;
    destruct (gdown_download env d) as [a| |e2]; simpl; eauto;
    exfalso; eapply Hnot; reflexivity.
Qed.

Lemma load_model_try_corrupt (env : Env) (w : World) (a : Artifact) (e : exn) :
  fs_model_file w = Some a →
  keras_load_model env a = Raise e →
  ∃ e' w', load_model_try env w = (Raised e', w').
Proof.
  destruct w as [dir file cache u c d s]. simpl. intros -> Hbad. run_loader.
  destruct dir, (os_makedirs env) as [e0|]; simpl; eauto;
    rewrite Hbad; simpl; eauto.
Qed.

(** C7: [load_model] never lets an exception out; when its [try] block
    raises, for whatever reason, it reports the error and returns [None];
    and when [load_model] returns [None], [main] shows "Failed to load
    model. Please refresh the page." and returns at once. *)
Theorem load_failure_is_sentinel (env : Env) (w : World) :
  (∃ handle w', load_model env w = (Returned handle, w'))
  ∧ (∀ e w1,
       resource_cache w = None →
       load_model_try env w = (Raised e, w1) →
       ∃ w2, load_model env w = (Returned None, w2)
             ∧ ui w2 = ui w1 ++ [StError ("Error loading model: " +:+ exn_str e)])
  ∧ (∀ fuel w1,
       load_model env (title_shown w) = (Returned None, w1) →
       main fuel env w
       = (Returned tt,
          add_ui [StError "Failed to load model. Please refresh the page."] w1)).
Proof.
  split; [|split].
  - destruct (load_model_twice env w) as (h & w1 & H & _). eauto.
  - intros e w1 Hcache Htry.
    unfold load_model, cache_resource, load_model_body, try_except.
    rewrite Hcache, Htry. unfold bind, show, ret. simpl.
    eexists. split; reflexivity.
  - intros fuel w1 Hload. unfold main, bind at 1 2 3, show.
    fold (title_shown w). rewrite Hload. reflexivity.
Qed.

Lemma load_failure_is_sentinel_witness :
  ∃ w1, load_model offline_env (title_shown fresh_world) = (Returned None, w1)
    ∧ main 0 offline_env fresh_world
      = (Returned tt,
         add_ui [StError "Failed to load model. Please refresh the page."] w1)
    ∧ ui w1 = [StTitle "Car Parts Classification";
               StSubheader "Upload an image or use the webcam to classify car parts";
               StSpinner "Downloading model... Please wait.";
               StError "Error loading model: Failed to retrieve file url"].
Proof.
  eexists. split; [reflexivity|]. split; [|reflexivity].
  apply (proj2 (proj2 (load_failure_is_sentinel offline_env fresh_world)) 0%nat).
  reflexivity.
Defined.

(** ** The camera probe *)

Lemma add_cam_add_cam (a b : list CamOp) (w : World) :
  add_cam b (add_cam a w) = add_cam (a ++ b) w.
Proof. unfold add_cam. simpl. rewrite <- app_assoc. reflexivity. Qed.

Lemma add_cam_nil (w : World) : add_cam [] w = w.
Proof. destruct w. unfold add_cam. simpl. rewrite app_nil_r. reflexivity. Qed.

Lemma below_4 (P : nat → Prop) :
  P 0%nat → P 1%nat → P 2%nat → P 3%nat → ∀ j, (j < 4)%nat → P j.
Proof.
  intros H0 H1 H2 H3 j Hj.
  destruct j as [|[|[|[|j]]]]; try assumption. lia.
Qed.

(** What [get_webcam] does: it opens 0, 1, 2, 3 in this order, stops at
    the first index that opens and returns it; when none of the four
    opens it returns [None]. *)
Lemma get_webcam_spec (env : Env) (w : World) :
  ∃ cap probes,
    get_webcam env w = (Returned cap, add_cam probes w)
    ∧ match cap with
      | Some idx =>
          (idx < 4)%nat
          ∧ video_capture_opens env idx = true
          ∧ (∀ j, (j < idx)%nat → video_capture_opens env j = false)
          ∧ probes = failed_probes idx ++ [CamOpen idx true]
      | None =>
          (∀ j, (j < 4)%nat → video_capture_opens env j = false)
          ∧ probes = failed_probes 4
      end.
Proof.
  unfold get_webcam. simpl seq. unfold get_webcam_probe, bind, cam, ret.
  destruct (video_capture_opens env 0) eqn:H0;
    [|destruct (video_capture_opens env 1) eqn:H1;
      [|destruct (video_capture_opens env 2) eqn:H2;
        [|destruct (video_capture_opens env 3) eqn:H3]]];
    rewrite ?add_cam_add_cam; simpl app.
  - exists (Some 0%nat), [CamOpen 0 true]. repeat split; auto; intros; lia.
  - exists (Some 1%nat), [CamOpen 0 false; CamOpen 1 true].
    repeat split; auto. intros [|j] Hj; [assumption | lia].
  - exists (Some 2%nat), [CamOpen 0 false; CamOpen 1 false; CamOpen 2 true].
    repeat split; auto. intros [|[|j]] Hj; [assumption | assumption | lia].
  - exists (Some 3%nat),
      [CamOpen 0 false; CamOpen 1 false; CamOpen 2 false; CamOpen 3 true].
    repeat split; auto. intros [|[|[|j]]] Hj; try assumption. lia.
  - exists None, (failed_probes 4). repeat split; auto.
    apply below_4; assumption.
Qed.

(** C8: [get_webcam] probes the indices 0, 1, 2, 3 in this order and binds
    to the first that opens; when none of the four opens it returns the
    sentinel [None], on which the webcam branch of [main] shows "No webcam
    found ..." and returns without reading or releasing any camera; a run
    in upload mode is the same whatever the cameras do. *)
Theorem get_webcam_first_open (env : Env) (w : World) :
  (∃ cap probes,
     get_webcam env w = (Returned cap, add_cam probes w)
     ∧ match cap with
       | Some idx =>
           (idx < 4)%nat
           ∧ video_capture_opens env idx = true
           ∧ (∀ j, (j < idx)%nat → video_capture_opens env j = false)
           ∧ probes = failed_probes idx ++ [CamOpen idx true]
       | None =>
           (∀ j, (j < 4)%nat → video_capture_opens env j = false)
           ∧ probes = failed_probes 4
       end)
  ∧ (∀ fuel model,
       start_webcam_clicked env = true →
       (∀ j, (j < 4)%nat → video_capture_opens env j = false) →
       webcam_branch fuel env model w
       = (Returned tt,
          add_ui [StError "No webcam found. Please ensure it's connected and permissions are granted."]
            (add_cam (failed_probes 4)
               (add_ui [StButton "Start Webcam"]
                  (add_ui [StText "Click the button below to start the webcam."] w)))))
  ∧ (∀ fuel opens,
       sidebar_radio env = UploadImage →
       main fuel (with_cameras opens env) w = main fuel env w).
Proof.
  split; [apply get_webcam_spec|]. split.
  - intros fuel model Hstart Hnone.
    unfold webcam_branch, bind at 1 2 3, show. rewrite Hstart.
    set (w0 := add_ui [StButton "Start Webcam"] _).
    destruct (get_webcam_spec env w0) as (cap & probes & Hget & Hcap).
    rewrite Hget. destruct cap as [idx|].
    + destruct Hcap as (Hlt & Hopen & _). rewrite Hnone in Hopen by exact Hlt.
      discriminate.
    + destruct Hcap as [_ ->]. reflexivity.
  - intros fuel opens Hupload.
    unfold main. simpl sidebar_radio. rewrite Hupload. reflexivity.
Qed.

Lemma get_webcam_first_open_witness :
  webcam_branch 0 (with_cameras (fun _ => false) camera_env)
                (stub_model tied_distribution) fresh_world
  = (Returned tt,
     mkWorld false None None
       [StText "Click the button below to start the webcam.";
        StButton "Start Webcam";
        StError "No webcam found. Please ensure it's connected and permissions are granted."]
       [CamOpen 0 false; CamOpen 1 false; CamOpen 2 false; CamOpen 3 false]
       0 0)
  ∧ main 0 (with_cameras (fun _ => false) offline_env) fresh_world
    = main 0 offline_env fresh_world.
Proof.
  split.
  - apply (proj1 (proj2 (get_webcam_first_open
                           (with_cameras (fun _ => false) camera_env) fresh_world))
             0%nat (stub_model tied_distribution)).
    + reflexivity.
    + intros j _. reflexivity.
  - apply (proj2 (proj2 (get_webcam_first_open offline_env fresh_world))
             0%nat (fun _ => false)).
    reflexivity.
Defined.

(** Cameras 0 and 1 are tried and fail before camera 2 is bound. *)
Example get_webcam_third :
  get_webcam camera_env fresh_world
  = (Returned (Some 2%nat),
     add_cam [CamOpen 0 false; CamOpen 1 false; CamOpen 2 true] fresh_world).
Proof. reflexivity. Qed.

(** ** The webcam loop *)

(** A frame that went through [preprocess_image] goes through the colour
    conversion of line 125 as well. *)
Lemma preprocess_image_converts (img : Image) (t : Tensor) :
  preprocess_image img = Ok t → ∃ rgb, cvtColor_BGR2RGB img = Ok rgb.
Proof.
  unfold preprocess_image. intros H.
  apply rbind_Ok in H as (rgb & Hrgb & _). eauto.
Qed.

Section WebcamLoop.
Variable env : Env.
Variable model : ModelHandle.
Variable cap : nat.

(** One turn of the loop reads the camera once, does not touch it
    otherwise, and comes to an end. *)
Lemma frame_step_log (stop_button : bool) (i : nat) (w : World) :
  ∃ o w', frame_step env model cap stop_button i w = (o, w')
    ∧ cam_log w' = cam_log w ++ [CamRead cap]
    ∧ o ≠ Running
    ∧ (stop_button = false → leaves_loop env model cap i = true →
       o ≠ Returned false)
    ∧ (leaves_loop env model cap i = false → o = Returned stop_button).
Proof.
  unfold frame_step, leaves_loop, bind, cam, lift, show, raise, ret.
  destruct (cap_read env cap i) as [e|[frame|]];
    [step_done
    | | step_done].
  destruct (preprocess_image frame) as [e|t] eqn:Hpre;
    [step_done|].
  apply preprocess_image_converts in Hpre as [rgb Hrgb]. rewrite Hrgb.
  destruct (predict model t) as [e|[[class_name confidence] dist]];
    [step_done|].
  destruct (stframe_image env i) as [e|];
    [step_done|].
  step_done.
Qed.

(** As long as no turn ends the loop and the stop button was not
    pressed, the loop goes on reading frames and releases nothing. *)
Lemma webcam_loop_running (fuel i : nat) (w : World) :
  (∀ k, (k < fuel)%nat → leaves_loop env model cap (i + k) = false) →
  ∃ w', webcam_loop fuel env model cap false i w = (Running, w')
    ∧ cam_log w' = cam_log w ++ repeat (CamRead cap) fuel.
Proof.
  revert i w. induction fuel as [|fuel IH]; intros i w Hgo; simpl.
  - exists w. split; [reflexivity|]. rewrite app_nil_r. reflexivity.
  - unfold bind.
    destruct (frame_step_log false i w) as (o & w1 & Hstep & Hlog & _ & _ & Hok).
    rewrite Hstep, Hok.
    2:{ rewrite <- (Nat.add_0_r i). apply Hgo. lia. }
    destruct (IH (S i) w1) as (w2 & Hloop & Hlog2).
    { intros k Hk. replace (S i + k)%nat with (i + S k)%nat by lia.
      apply Hgo. lia. }
    exists w2. split; [exact Hloop|].
    rewrite Hlog2, Hlog, <- app_assoc. reflexivity.
Qed.

(** The loop only ever reads from the camera. *)
Lemma webcam_loop_log (stop_button : bool) (fuel i : nat) (w : World) :
  ∃ o w' n, webcam_loop fuel env model cap stop_button i w = (o, w')
    ∧ cam_log w' = cam_log w ++ repeat (CamRead cap) n.
Proof.
  revert i w. induction fuel as [|fuel IH]; intros i w; simpl.
  - destruct stop_button; eexists _, _, 0%nat;
      (split; [reflexivity|]); simpl; rewrite app_nil_r; reflexivity.
  - destruct stop_button eqn:Hstop.
    + eexists _, _, 0%nat. split; [reflexivity|].
      simpl. rewrite app_nil_r. reflexivity.
    + unfold bind.
      destruct (frame_step_log false i w) as (o & w1 & Hstep & Hlog & _).
      rewrite Hstep. destruct o as [[|]|e|].
      * eexists _, _, 1%nat. split; [reflexivity|]. exact Hlog.
      * destruct (IH (S i) w1) as (o2 & w2 & n & Hloop & Hlog2).
        rewrite Hloop.
        exists o2, w2, (S n). split; [reflexivity|].
        rewrite Hlog2, Hlog, <- app_assoc. reflexivity.
      * eexists _, _, 1%nat. split; [reflexivity|]. exact Hlog.
      * eexists _, _, 1%nat. split; [reflexivity|]. exact Hlog.
Qed.

(** A turn that ends the loop is reached within as many turns as its
    number says. *)
Lemma webcam_loop_leaves (k fuel i : nat) (w : World) :
  (k < fuel)%nat →
  leaves_loop env model cap (i + k) = true →
  (webcam_loop fuel env model cap false i w).1 ≠ Running.
Proof.
  revert fuel i w. induction k as [|k IH]; intros fuel i w Hfuel Hleave;
    (destruct fuel as [|fuel]; [lia|]); simpl; unfold bind;
    destruct (frame_step_log false i w) as (o & w1 & Hstep & _ & Hrun & Hout & _);
    rewrite Hstep.
  - rewrite Nat.add_0_r in Hleave. specialize (Hout eq_refl Hleave).
    destruct o as [[|]|e|]; simpl; congruence.
  - destruct o as [[|]|e|]; simpl; try congruence.
    apply IH; [lia|]. rewrite <- Hleave. f_equal. lia.
Qed.

(** C5: whenever the [try] statement around the loop is left, by the
    loop condition, by [break] on an exhausted stream or by an exception
    of the loop body, the camera has been released, exactly once and as
    the last operation on it.  A pressed stop button leaves at once, and
    a turn that exhausts the stream or raises is a way out. *)
Theorem webcam_session_releases (fuel : nat) (stop_button : bool) (w : World) :
  ∃ o w',
    webcam_session fuel env model cap stop_button w = (o, w')
    ∧ (o ≠ Running →
       ∃ n, cam_log w'
            = cam_log w ++ repeat (CamRead cap) n ++ [CamRelease cap])
    ∧ (stop_button = true →
       o = Returned tt ∧ cam_log w' = cam_log w ++ [CamRelease cap])
    ∧ (∀ k, (k < fuel)%nat → leaves_loop env model cap k = true →
       o ≠ Running).
Proof.
  unfold webcam_session, try_finally.
  destruct (webcam_loop_log stop_button fuel 0 w) as (o & w1 & n & Hloop & Hlog).
  rewrite Hloop. unfold cam.
  assert (Hstop : stop_button = true → o = Returned tt ∧ w1 = w).
  { intros ->. destruct fuel; simpl in Hloop; unfold ret in Hloop;
      injection Hloop as <- <-; auto. }
  assert (Hleave : ∀ k, (k < fuel)%nat →
                   leaves_loop env model cap k = true → o ≠ Running).
  { intros k Hk Hl. destruct stop_button.
    - destruct (Hstop eq_refl) as [-> _]. discriminate.
    - pose proof (webcam_loop_leaves k fuel 0 w Hk Hl) as Hne.
      rewrite Hloop in Hne. exact Hne. }
  destruct o as [[]|e|].
  - eexists _, _. split; [reflexivity|]. split; [|split].
    + intros _. exists n. simpl. rewrite Hlog, <- app_assoc. reflexivity.
    + intros Hs. destruct (Hstop Hs) as [_ ->]. auto.
    + intros k Hk Hl. discriminate.
  - eexists _, _. split; [reflexivity|]. split; [|split].
    + intros _. exists n. simpl. rewrite Hlog, <- app_assoc. reflexivity.
    + intros Hs. destruct (Hstop Hs) as [Habs _]. discriminate.
    + intros k Hk Hl. discriminate.
  - eexists _, _. split; [reflexivity|]. split; [|split].
    + intros Habs. congruence.
    + intros Hs. destruct (Hstop Hs) as [Habs _]. discriminate.
    + exact Hleave.
Qed.

(** An inference error on the first frame: the exception of the
    classifier leaves the loop and the [try] statement, and the camera
    has been read once and released. *)
Lemma webcam_session_inference_error
      (fuel : nat) (w : World) (frame : Image) (t : Tensor) (e : exn) :
  cap_read env cap 0 = Ok (Some frame) →
  preprocess_image frame = Ok t →
  model_predict model t = Raise e →
  webcam_session (S fuel) env model cap false w
  = (Raised e, add_cam [CamRelease cap] (add_cam [CamRead cap] w)).
Proof.
  intros Hread Hpre Hinfer.
  unfold webcam_session, try_finally. cbn [webcam_loop].
  unfold frame_step, bind, cam, lift.
  rewrite Hread. unfold Ok. cbv beta iota.
  rewrite Hpre. unfold Ok, predict. cbv beta iota.
  rewrite Hinfer. reflexivity.
Qed.
End WebcamLoop.

Lemma webcam_session_releases_witness :
  (webcam_session 5 camera_env (stub_model tied_distribution) 2 false fresh_world).1
  ≠ Running.
Proof.
  destruct (webcam_session_releases camera_env (stub_model tied_distribution) 2
              5 false fresh_world) as (o & w' & Hrun & _ & _ & Hleave).
  rewrite Hrun. simpl. apply (Hleave 2%nat); [lia | reflexivity].
Defined.

(** The first read finds the stream exhausted: the loop is left by
    [break] and the camera is released. *)
Example webcam_session_exhausted :
  let '(o, w) := webcam_session 5 offline_env (stub_model tied_distribution) 2
                                false fresh_world in
  o = Returned tt ∧ cam_log w = [CamRead 2; CamRelease 2].
Proof. vm_compute. auto. Qed.

(** With the stop button already pressed no frame is read. *)
Example webcam_session_stopped :
  let '(o, w) := webcam_session 0 camera_env (stub_model tied_distribution) 2
                                true fresh_world in
  o = Returned tt ∧ cam_log w = [CamRelease 2].
Proof. vm_compute. auto. Qed.

(** * Further properties *)

(** ** More on the predictor *)

Lemma first_argmax_unique (d : list Q) (i j : nat) :
  first_argmax d i → first_argmax d j → i = j.
Proof.
  intros (mi & Hi & Hmaxi & Hlowi) (mj & Hj & Hmaxj & Hlowj).
  destruct (Nat.lt_trichotomy i j) as [Hlt|[Heq|Hgt]]; [|exact Heq|].
  - pose proof (Hlowj i mi Hlt Hi) as H1. pose proof (Hmaxi j mj Hj) as H2.
    exfalso. eapply Qlt_not_le; eauto.
  - pose proof (Hlowi j mj Hgt Hj) as H1. pose proof (Hmaxj i mi Hi) as H2.
    exfalso. eapply Qlt_not_le; eauto.
Qed.

(** X1: [np.argmax] answers [i] exactly when [i] is the first position of a
    maximal element, and it raises, with [ValueError], exactly on the empty
    array. *)
Theorem argmax_characterization (d : list Q) :
  (∀ i, argmax d = Ok i ↔ first_argmax d i)
  ∧ (∀ e, argmax d = Raise e ↔ d = [] ∧ e = ValueError).
Proof.
  split.
  - intros i. destruct d as [|x t].
    + split; [discriminate|]. intros (m & Hm & _). discriminate.
    + simpl. split.
      * intros [= <-]. apply argmax_first.
      * intros Hi. f_equal.
        eapply first_argmax_unique; [apply argmax_first | exact Hi].
  - intros e. destruct d as [|x t]; simpl.
    + split; [intros [= <-]; auto | intros [_ ->]; reflexivity].
    + split; [discriminate | intros [? _]; discriminate].
Qed.

Lemma rbind_Raise {A B} (m : result A) (k : A → result B) (e : exn) :
  rbind m k = Raise e ↔ m = Raise e ∨ ∃ a, m = Ok a ∧ k a = Raise e.
Proof.
  destruct m as [e'|a]; simpl; split.
  - intros [= ->]. left. reflexivity.
  - intros [[= ->]|(a & Ha & _)]; [reflexivity | discriminate].
  - intros H. right. eauto.
  - intros [H|(a' & [= <-] & H)]; [discriminate | exact H].
Qed.

Lemma py_index_Raise {A} (l : list A) (i : nat) (e : exn) :
  py_index l i = Raise e ↔ (length l ≤ i)%nat ∧ e = IndexError.
Proof.
  unfold py_index, Ok, Raise. destruct (l !! i) as [a|] eqn:Hl; split.
  - discriminate.
  - intros [Hlen _]. apply lookup_lt_Some in Hl. lia.
  - intros [= <-]. apply lookup_ge_None in Hl. auto.
  - intros [_ ->]. reflexivity.
Qed.

(** [predict] on a distribution [d] whose first maximum is at [i]. *)
Lemma predict_at (model : ModelHandle) (img : Tensor)
                 (d : list Q) (others : list (list Q)) (i : nat) :
  model_predict model img = Ok (d :: others) →
  first_argmax d i →
  ∃ confidence, d !! i = Some confidence
    ∧ predict model img
      = (let! class_name := py_index class_names i in
         Ok (class_name, confidence, d)).
Proof.
  intros Hmodel Hfirst.
  assert (Harg : argmax d = Ok i).
  { destruct d as [|x t]; [destruct Hfirst as (m & Hm & _); discriminate|].
    simpl. f_equal. eapply first_argmax_unique; [apply argmax_first | exact Hfirst]. }
  destruct Hfirst as (m & Hm & _). exists m. split; [exact Hm|].
  unfold predict. rewrite Hmodel. simpl rbind. rewrite Harg. simpl rbind.
  rewrite (py_index_lookup _ _ _ Hm). reflexivity.
Qed.

(** X2: The four ways [predict] raises, and no other: the classifier raises
    (the exception is passed on unchanged); the classifier answers with an
    empty batch ([IndexError]); the first distribution is empty
    ([ValueError]); the first maximum lies at an index for which there is
    no label ([IndexError]). *)
Theorem predict_raises_iff (model : ModelHandle) (img : Tensor) (e : exn) :
  predict model img = Raise e ↔
    model_predict model img = Raise e
    ∨ (model_predict model img = Ok [] ∧ e = IndexError)
    ∨ (∃ others, model_predict model img = Ok ([] :: others) ∧ e = ValueError)
    ∨ (∃ d others i, model_predict model img = Ok (d :: others)
         ∧ first_argmax d i ∧ (length class_names ≤ i)%nat ∧ e = IndexError).
Proof.
  split.
  - unfold predict. intros H.
    apply rbind_Raise in H as [H|(prediction & Hmodel & H)]; [left; exact H|].
    right.
    apply rbind_Raise in H as [H|(d & Hd & H)].
    { left. apply py_index_Raise in H as [Hlen ->].
      destruct prediction; [auto | simpl in Hlen; lia]. }
    right. apply py_index_Ok in Hd.
    destruct prediction as [|d' others]; [discriminate|]. injection Hd as ->.
    apply rbind_Raise in H as [H|(i & Hi & H)].
    { left. exists others. destruct d; [|discriminate].
      injection H as <-. auto. }
    right. exists d, others, i. split; [exact Hmodel|].
    assert (Hfirst : first_argmax d i).
    { destruct d as [|x t]; [discriminate|]. injection Hi as <-.
      apply argmax_first. }
    split; [exact Hfirst|].
    apply rbind_Raise in H as [H|(c & _ & H)].
    { apply py_index_Raise in H as [Hlen _].
      apply first_argmax_lt in Hfirst. lia. }
    apply rbind_Raise in H as [H|(name & _ & H)]; [|discriminate].
    apply py_index_Raise in H. exact H.
  - intros [H|[[H ->]|[(others & H & ->)|(d & others & i & H & Hfirst & Hge & ->)]]].
    + unfold predict. rewrite H. reflexivity.
    + unfold predict. rewrite H. reflexivity.
    + unfold predict. rewrite H. reflexivity.
    + destruct (predict_at model img d others i H Hfirst) as (c & _ & ->).
      unfold py_index. rewrite (proj2 (lookup_ge_None _ _) Hge). reflexivity.
Qed.

Lemma predict_raises_iff_witness :
  model_predict (stub_model long_distribution) [] = Raise IndexError
  ∨ (model_predict (stub_model long_distribution) [] = Ok [] ∧ IndexError = IndexError)
  ∨ (∃ others, model_predict (stub_model long_distribution) [] = Ok ([] :: others)
       ∧ IndexError = ValueError)
  ∨ (∃ d others i, model_predict (stub_model long_distribution) [] = Ok (d :: others)
       ∧ first_argmax d i ∧ (length class_names ≤ i)%nat ∧ IndexError = IndexError).
Proof.
  apply (proj1 (predict_raises_iff (stub_model long_distribution) [] IndexError)).
  reflexivity.
Defined.

Lemma sumQ_le_max (d : list Q) (m : Q) :
  (∀ x, x ∈ d → (x <= m)%Q) →
  (sumQ d <= inject_Z (Z.of_nat (length d)) * m)%Q.
Proof.
  induction d as [|x t IH]; intros Hmax.
  - simpl. rewrite Qmult_0_l. apply Qle_refl.
  - assert (Hx : (x <= m)%Q) by (apply Hmax; left).
    assert (Ht : (sumQ t <= inject_Z (Z.of_nat (length t)) * m)%Q).
    { apply IH. intros y Hy. apply Hmax. right. exact Hy. }
    change (length (x :: t)) with (S (length t)).
    rewrite Nat2Z.inj_succ. unfold Z.succ. rewrite inject_Z_plus.
    change (sumQ (x :: t)) with (x + sumQ t)%Q.
    change (inject_Z 1) with 1%Q. lra.
Qed.

Lemma sumQ_nonneg (d : list Q) :
  (∀ x, x ∈ d → (0 <= x)%Q) → (0 <= sumQ d)%Q.
Proof.
  induction d as [|x t IH]; intros Hpos.
  - apply Qle_refl.
  - assert (Hx : (0 <= x)%Q) by (apply Hpos; left).
    assert (Ht : (0 <= sumQ t)%Q).
    { apply IH. intros y Hy. apply Hpos. right. exact Hy. }
    change (sumQ (x :: t)) with (x + sumQ t)%Q. lra.
Qed.

Lemma sumQ_ge_elem (d : list Q) (c : Q) :
  (∀ x, x ∈ d → (0 <= x)%Q) → c ∈ d → (c <= sumQ d)%Q.
Proof.
  induction d as [|x t IH]; intros Hpos Hc.
  - inversion Hc.
  - assert (Hx : (0 <= x)%Q) by (apply Hpos; left).
    assert (Ht : (0 <= sumQ t)%Q).
    { apply sumQ_nonneg. intros y Hy. apply Hpos. right. exact Hy. }
    change (sumQ (x :: t)) with (x + sumQ t)%Q.
    apply elem_of_cons in Hc as [->|Hc]; [lra|].
    assert (c <= sumQ t)%Q.
    { apply IH; [|exact Hc]. intros y Hy. apply Hpos. right. exact Hy. }
    lra.
Qed.

(** X3: For a probability vector (entries not negative, sum 1) the confidence
    [predict] returns is at least one over the number of classes, and at
    most 1. *)
Theorem predict_confidence_range model img class_name confidence dist :
  predict model img = Ok (class_name, confidence, dist) →
  (∀ x, x ∈ dist → (0 <= x)%Q) →
  (sumQ dist == 1)%Q →
  (1 / inject_Z (Z.of_nat (length dist)) <= confidence <= 1)%Q.
Proof.
  intros Hp Hpos Hsum.
  apply predict_Ok_inv in Hp as (prediction & idx & _ & _ & Harg & Hconf & _).
  assert (Hfirst : first_argmax dist idx).
  { destruct dist as [|x t]; [discriminate|]. injection Harg as <-.
    apply argmax_first. }
  destruct Hfirst as (m & Hm & Hmax & _).
  assert (m = confidence) as -> by congruence.
  assert (Hin : confidence ∈ dist) by (eapply list_elem_of_lookup_2; eauto).
  assert (Hlen : (0 < inject_Z (Z.of_nat (length dist)))%Q).
  { change 0%Q with (inject_Z 0). rewrite <- Zlt_Qlt.
    apply lookup_lt_Some in Hconf. lia. }
  split.
  - apply Qle_shift_div_r; [exact Hlen|].
    rewrite <- Hsum. rewrite Qmult_comm. apply sumQ_le_max.
    intros x Hx. apply list_elem_of_lookup_1 in Hx as [j Hj]. eapply Hmax; eauto.
  - rewrite <- Hsum. apply sumQ_ge_elem; assumption.
Qed.

Lemma predict_confidence_range_witness :
  (1 / inject_Z (Z.of_nat (length tied_distribution)) <= 2 # 5 <= 1)%Q.
Proof.
  apply (predict_confidence_range (stub_model tied_distribution) []
           "ALTERNATOR" (2 # 5)%Q tied_distribution).
  - reflexivity.
  - intros x Hx. unfold tied_distribution in Hx.
    repeat (apply elem_of_cons in Hx as [->|Hx]; [discriminate|]).
    inversion Hx.
  - reflexivity.
Defined.

Lemma class_names_NoDup : NoDup class_names.
Proof. apply (bool_decide_unpack _). vm_compute. exact I. Qed.

(** X4: No two labels are equal, so the class name [predict] returns tells
    the index it was decoded from: any index that carries this name is the
    first maximum of the distribution and holds the confidence. *)
Theorem predict_name_identifies_index model img class_name confidence dist (i : nat) :
  predict model img = Ok (class_name, confidence, dist) →
  class_names !! i = Some class_name →
  first_argmax dist i ∧ dist !! i = Some confidence.
Proof.
  intros Hp Hi.
  apply predict_Ok_inv in Hp as (prediction & idx & _ & _ & Harg & Hconf & Hname).
  assert (i = idx) as ->.
  { eapply NoDup_lookup; [apply class_names_NoDup | exact Hi | exact Hname]. }
  split; [|exact Hconf].
  destruct dist as [|x t]; [discriminate|]. injection Harg as <-.
  apply argmax_first.
Qed.

Lemma predict_name_identifies_index_witness :
  first_argmax tied_distribution 1 ∧ tied_distribution !! 1%nat = Some (2 # 5)%Q.
Proof.
  apply (predict_name_identifies_index (stub_model tied_distribution) []
           "ALTERNATOR" (2 # 5)%Q tied_distribution 1);
    reflexivity.
Defined.

(** ** What a computation leaves alone *)

Lemma add_ui_add_ui (a b : list UiEvent) (w : World) :
  add_ui b (add_ui a w) = add_ui (a ++ b) w.
Proof. unfold add_ui. simpl. rewrite <- app_assoc. reflexivity. Qed.

Lemma add_ui_nil (w : World) : add_ui [] w = w.
Proof. destruct w. unfold add_ui. simpl. rewrite app_nil_r. reflexivity. Qed.

Section Preserves.
Context {X : Type} (f : World → X).

Lemma preserves_ret {A} (a : A) : preserves f (ret a).
Proof. intros w. reflexivity. Qed.

Lemma preserves_raise {A} (e : exn) : preserves f (raise (A := A) e).
Proof. intros w. reflexivity. Qed.

Lemma preserves_lift {A} (r : result A) : preserves f (lift r).
Proof. intros w. unfold lift. destruct r; reflexivity. Qed.

Lemma preserves_bind {A B} (m : M A) (k : A → M B) :
  preserves f m → (∀ a, preserves f (k a)) → preserves f (bind m k).
Proof.
  intros Hm Hk w. unfold bind. specialize (Hm w).
  destruct (m w) as [[a|e|] w1]; simpl in *; try exact Hm.
  rewrite Hk. exact Hm.
Qed.

Lemma preserves_try_except {A} (body : M A) (handler : exn → M A) :
  preserves f body → (∀ e, preserves f (handler e)) →
  preserves f (try_except body handler).
Proof.
  intros Hb Hh w. unfold try_except. specialize (Hb w).
  destruct (body w) as [[a|e|] w1]; simpl in *; try exact Hb.
  rewrite Hh. exact Hb.
Qed.

Hypothesis f_ui : ∀ evs w, f (add_ui evs w) = f w.

Lemma preserves_show (ev : UiEvent) : preserves f (show ev).
Proof. intros w. apply f_ui. Qed.

Lemma preserves_page_call (raises : option exn) (ev : UiEvent) :
  preserves f (page_call raises ev).
Proof.
  unfold page_call. destruct raises; [intros w; reflexivity | apply preserves_show].
Qed.

Lemma preserves_st_progress (value : Q) : preserves f (st_progress value).
Proof.
  unfold st_progress.
  destruct (Qle_bool 0 value && Qle_bool value 1);
    [apply preserves_show | intros w; reflexivity].
Qed.

Lemma preserves_show_probabilities (names : list string) (ps : list Q) (i : nat) :
  preserves f (show_probabilities i names ps).
Proof.
  revert i. induction names as [|name rest IH]; intros i; simpl.
  - apply preserves_ret.
  - apply preserves_bind; [apply preserves_lift|]. intros p.
    apply preserves_bind; [apply preserves_st_progress|]. intros _.
    apply preserves_bind; [apply preserves_show|]. intros _.
    apply IH.
Qed.

Lemma preserves_upload_branch (env : Env) (model : ModelHandle) :
  preserves f (upload_branch env model).
Proof.
  unfold upload_branch.
  apply preserves_bind; [apply preserves_show|]. intros _.
  destruct (file_uploader env) as [opened|]; [|apply preserves_ret].
  repeat first
    [ apply preserves_show_probabilities
    | apply preserves_show
    | apply preserves_lift
    | apply preserves_bind; [|intros ?]
    | match goal with |- preserves _ (let '(_, _) := ?p in _) => destruct p as [[? ?] ?] end ].
Qed.
End Preserves.

(** ** The upload branch *)

Lemma probability_rows_cons (name : string) (rest : list string) (p : Q) (ps : list Q) :
  probability_rows (name :: rest) (p :: ps)
  = [StProgress p; StCaption name p] ++ probability_rows rest ps.
Proof. reflexivity. Qed.

Lemma probability_rows_length (names : list string) (ps : list Q) :
  length (probability_rows names ps)
  = (2 * Nat.min (length names) (length ps))%nat.
Proof.
  revert ps. induction names as [|name rest IH]; intros [|p ps]; try reflexivity.
  rewrite probability_rows_cons. cbn [length app Nat.min]. rewrite IH. lia.
Qed.

Lemma probability_rows_nil_r (names : list string) : probability_rows names [] = [].
Proof. destruct names; reflexivity. Qed.

Lemma st_progress_unit_range (value : Q) (w : World) :
  unit_range value → st_progress value w = (Returned tt, add_ui [StProgress value] w).
Proof.
  intros [Hlo Hhi]. unfold st_progress.
  apply Qle_bool_iff in Hlo, Hhi. rewrite Hlo, Hhi. reflexivity.
Qed.

(** On values that are all in [0, 1], the loop of lines 96-98 shows a bar
    and a caption for every label that has a value, in order, and raises
    [IndexError] at the first label that has none. *)
Lemma show_probabilities_run (names : list string) (ps : list Q) (i : nat) (w : World) :
  Forall unit_range ps →
  show_probabilities i names ps w
  = (if decide (length names ≤ length (drop i ps))%nat
     then Returned tt else Raised IndexError,
     add_ui (probability_rows names (drop i ps)) w).
Proof.
  intros Hrange. revert i w. induction names as [|name rest IH]; intros i w.
  - cbn [show_probabilities]. unfold ret. rewrite decide_True by (simpl; lia).
    rewrite add_ui_nil. reflexivity.
  - cbn [show_probabilities]. unfold bind, lift, py_index.
    destruct (ps !! i) as [p|] eqn:Hp.
    + unfold Ok. cbv beta iota.
      rewrite st_progress_unit_range
        by (rewrite Forall_forall in Hrange; apply Hrange;
            eapply list_elem_of_lookup_2; exact Hp).
      unfold show. rewrite IH.
      rewrite (drop_S _ _ _ Hp), probability_rows_cons, !add_ui_add_ui.
      cbn [length app].
      destruct (decide (length rest ≤ length (drop (S i) ps))%nat);
        [rewrite decide_True by lia | rewrite decide_False by lia]; reflexivity.
    + unfold Raise. cbv beta iota.
      apply lookup_ge_None in Hp. rewrite drop_ge by lia.
      rewrite decide_False by (simpl; lia).
      rewrite probability_rows_nil_r, add_ui_nil. reflexivity.
Qed.

(** A valid picture gets through the preprocessor. *)
Lemma preprocess_image_returns (img : Image) :
  valid_image img = true → ∃ t, preprocess_image img = Ok t.
Proof.
  intros Hvalid.
  destruct (valid_image_first_row img Hvalid) as [Hh Hw].
  destruct (cvtColor_valid img Hvalid) as (rgb & Hrgb & Hlen & Hrows).
  destruct rgb as [|r0 rs]; [simpl in Hlen; lia|].
  assert (Hr0 : length r0 = length (hd [] img)) by (inversion Hrows; tauto).
  destruct (resize_range (r0 :: rs) 224 224) as (out & Hout & _).
  - simpl. lia.
  - simpl. lia.
  - eapply Forall_impl; [exact Hrows|]. intros row [_ Hpx].
    eapply Forall_impl; [exact Hpx|]. intros px [_ Hb]. exact Hb.
  - eexists. unfold preprocess_image. rewrite Hrgb. simpl rbind.
    rewrite Hout. reflexivity.
Qed.

Lemma describe_label (class_name : string) :
  class_name ∈ class_names → describe class_name = no_description.
Proof.
  intros Hin. pose proof class_names_not_described as Hall.
  rewrite Forall_forall in Hall. unfold describe. rewrite (Hall _ Hin).
  reflexivity.
Qed.

(** The upload branch on a valid picture and a distribution of values in
    [0, 1] that is not longer than the label set: what it shows and how it
    ends. *)
Lemma upload_branch_run (env : Env) (model : ModelHandle) (w : World)
      (img : Image) (dist : list Q) (others : list (list Q)) :
  file_uploader env = Some (Ok img) →
  valid_image img = true →
  (∀ t, preprocess_image img = Ok t → model_predict model t = Ok (dist :: others)) →
  Forall unit_range dist →
  dist ≠ [] →
  (length dist ≤ length class_names)%nat →
  ∃ idx class_name confidence,
    first_argmax dist idx
    ∧ class_names !! idx = Some class_name
    ∧ dist !! idx = Some confidence
    ∧ upload_branch env model w
      = (if decide (length class_names ≤ length dist)%nat
         then Returned tt else Raised IndexError,
         add_ui ([StFileUploader "Upload a car part image"; StImage img;
                  StSpinner "Analyzing image..."; StSubheader "Prediction Results";
                  StPredictedClass class_name; StConfidence confidence;
                  StMarkdown "### Class Probabilities"]
                 ++ probability_rows class_names dist
                 ++ (if decide (length class_names ≤ length dist)%nat
                     then [StMarkdown "### Part Description";
                           StMarkdown "No description available."]
                     else [])) w).
Proof.
  intros Hfile Hvalid Hmodel Hrange Hne Hlen.
  destruct (preprocess_image_returns img Hvalid) as (t & Ht).
  specialize (Hmodel t Ht).
  destruct dist as [|x rest]; [congruence|].
  pose proof (argmax_first x rest) as Hfirst.
  set (dist := x :: rest) in *. set (idx := argmax_scan rest 1 0 x) in *.
  destruct (predict_at model t dist others idx Hmodel Hfirst) as (conf & Hconf & Hpredict).
  assert (Hidx : (idx < length class_names)%nat).
  { apply lookup_lt_Some in Hconf. lia. }
  apply lookup_lt_is_Some_2 in Hidx as [name Hname].
  rewrite (py_index_lookup _ _ _ Hname) in Hpredict. simpl rbind in Hpredict.
  exists idx, name, conf. repeat (split; [assumption|]).
  unfold upload_branch, bind, show, lift. rewrite Hfile. unfold Ok at 1.
  cbv beta iota. rewrite Ht. unfold Ok at 1. cbv beta iota.
  rewrite Hpredict. unfold Ok at 1. cbv beta iota.
  rewrite show_probabilities_run by exact Hrange. rewrite drop_0.
  rewrite (describe_label name) by (eapply list_elem_of_lookup_2; exact Hname).
  destruct (decide (length class_names ≤ length dist)%nat);
    rewrite !add_ui_add_ui; simpl app; try rewrite app_nil_r; reflexivity.
Qed.

(** X5: Upload mode, with a valid picture and a distribution that has one
    value per label, every value in [0, 1] (as [st.progress] demands): the
    branch returns normally, and the page gets, in
    this order, the uploader, the picture, the spinner, the predicted class
    (the label at the first maximum) and its confidence, one bar and one
    caption per label in label order, and as description the fallback
    text. *)
Theorem upload_branch_page (env : Env) (model : ModelHandle) (w : World)
        (img : Image) (dist : list Q) (others : list (list Q)) :
  file_uploader env = Some (Ok img) →
  valid_image img = true →
  (∀ t, preprocess_image img = Ok t → model_predict model t = Ok (dist :: others)) →
  Forall (fun p => 0 <= p <= 1)%Q dist →
  length dist = length class_names →
  ∃ idx class_name confidence,
    first_argmax dist idx
    ∧ class_names !! idx = Some class_name
    ∧ dist !! idx = Some confidence
    ∧ upload_branch env model w
      = (Returned tt,
         add_ui ([StFileUploader "Upload a car part image"; StImage img;
                  StSpinner "Analyzing image..."; StSubheader "Prediction Results";
                  StPredictedClass class_name; StConfidence confidence;
                  StMarkdown "### Class Probabilities"]
                 ++ probability_rows class_names dist
                 ++ [StMarkdown "### Part Description";
                     StMarkdown "No description available."]) w).
Proof.
  intros Hfile Hvalid Hmodel Hrange Hlen.
  destruct (upload_branch_run env model w img dist others Hfile Hvalid Hmodel Hrange)
    as (idx & name & conf & Hfirst & Hname & Hconf & Hrun).
  - intros ->. discriminate Hlen.
  - lia.
  - exists idx, name, conf. repeat (split; [assumption|]).
    rewrite Hrun. destruct (decide (length class_names ≤ length dist)%nat); [|lia].
    reflexivity.
Qed.

Lemma upload_branch_page_witness :
  (upload_branch (upload_env uniform_distribution)
                 (stub_model uniform_distribution) fresh_world).1
  = Returned tt.
Proof.
  destruct (upload_branch_page (upload_env uniform_distribution)
              (stub_model uniform_distribution) fresh_world
              tiny_image uniform_distribution [])
    as (idx & name & conf & _ & _ & _ & ->).
  - reflexivity.
  - reflexivity.
  - intros t _. reflexivity.
  - unfold uniform_distribution. simpl.
    repeat (constructor; [split; discriminate|]). constructor.
  - reflexivity.
  - reflexivity.
Defined.

(** X6: Upload mode, with a valid picture and a distribution of values in
    [0, 1] that has fewer values than there are labels (a classifier
    trained on fewer classes):
    the prediction is shown, then one bar and caption for each value there
    is, and then [all_predictions[i]] raises [IndexError]; the description
    is never shown. *)
Theorem upload_branch_short_distribution
        (env : Env) (model : ModelHandle) (w : World)
        (img : Image) (dist : list Q) (others : list (list Q)) :
  file_uploader env = Some (Ok img) →
  valid_image img = true →
  (∀ t, preprocess_image img = Ok t → model_predict model t = Ok (dist :: others)) →
  Forall (fun p => 0 <= p <= 1)%Q dist →
  dist ≠ [] →
  (length dist < length class_names)%nat →
  ∃ idx class_name confidence,
    first_argmax dist idx
    ∧ class_names !! idx = Some class_name
    ∧ dist !! idx = Some confidence
    ∧ upload_branch env model w
      = (Raised IndexError,
         add_ui ([StFileUploader "Upload a car part image"; StImage img;
                  StSpinner "Analyzing image..."; StSubheader "Prediction Results";
                  StPredictedClass class_name; StConfidence confidence;
                  StMarkdown "### Class Probabilities"]
                 ++ probability_rows class_names dist) w)
    ∧ length (probability_rows class_names dist) = (2 * length dist)%nat.
Proof.
  intros Hfile Hvalid Hmodel Hrange Hne Hlen.
  destruct (upload_branch_run env model w img dist others Hfile Hvalid Hmodel
              Hrange Hne)
    as (idx & name & conf & Hfirst & Hname & Hconf & Hrun); [lia|].
  exists idx, name, conf. repeat (split; [assumption|]).
  split.
  - rewrite Hrun. destruct (decide (length class_names ≤ length dist)%nat); [lia|].
    rewrite app_nil_r. reflexivity.
  - rewrite probability_rows_length. lia.
Qed.

Lemma upload_branch_short_distribution_witness :
  (upload_branch (upload_env tied_distribution)
                 (stub_model tied_distribution) fresh_world).1
  = Raised IndexError.
Proof.
  destruct (upload_branch_short_distribution (upload_env tied_distribution)
              (stub_model tied_distribution) fresh_world
              tiny_image tied_distribution [])
    as (idx & name & conf & _ & _ & _ & -> & _).
  - reflexivity.
  - reflexivity.
  - intros t _. reflexivity.
  - unfold tied_distribution.
    repeat (constructor; [split; discriminate|]). constructor.
  - discriminate.
  - vm_compute. lia.
  - reflexivity.
Defined.

(** ** More on the model loader *)

(** X7: With an empty cache, [load_model] returns a handle exactly when the
    directory exists or can be made, an artifact is on disk or is
    delivered by the download, and that artifact deserializes; the handle
    is then the deserialized artifact, which is on disk afterwards. *)
Theorem load_model_succeeds_iff (env : Env) (w : World) (m : ModelHandle) :
  resource_cache w = None →
  (load_model env w).1 = Returned (Some m)
  ↔ (fs_models_dir w = true ∨ os_makedirs env = None)
    ∧ ∃ a, (fs_model_file w = Some a
            ∨ (fs_model_file w = None
               ∧ gdown_download env (downloads w) = Fetched a))
           ∧ keras_load_model env a = Ok m
           ∧ fs_model_file (load_model env w).2 = Some a.
Proof.
  destruct w as [dir file cache u c d s]. simpl. intros ->. run_load_model.
  destruct dir, (os_makedirs env) as [e0|], file as [a|]; simpl;
    try (destruct (gdown_download env d) as [a| |e2] eqn:Hdl; simpl);
    try (destruct (keras_load_model env a) as [e1|m'] eqn:Hk; simpl);
    (split;
     [ intros H; try discriminate H; injection H as <-;
       (split; [auto|]); exists a; auto
     | intros [[Hd|Hd] (a' & [Ha|[Ha Hf]] & Hm & _)];
       unfold Ok in *; try discriminate; congruence ]).
Qed.

Lemma load_model_succeeds_iff_witness :
  (load_model camera_env (mkWorld true (Some "keras") None [] [] 0 0)).1
  = Returned (Some (stub_model tied_distribution)).
Proof.
  apply (proj2 (load_model_succeeds_iff camera_env
                  (mkWorld true (Some "keras") None [] [] 0 0)
                  (stub_model tied_distribution) eq_refl)).
  split; [left; reflexivity|].
  exists "keras". split; [left; reflexivity|]. split; reflexivity.
Defined.

(** X8: An artifact that is on disk is never downloaded again and never
    overwritten, whether loading it succeeds or not. *)
Theorem load_model_keeps_artifact (env : Env) (w : World) (a : Artifact) :
  fs_model_file w = Some a →
  downloads (load_model env w).2 = downloads w
  ∧ fs_model_file (load_model env w).2 = Some a.
Proof.
  destruct w as [dir file cache u c d s]. simpl. intros ->. run_load_model.
  destruct cache as [v|]; [auto|].
  destruct dir, (os_makedirs env) as [e0|]; simpl; auto;
    destruct (keras_load_model env a) as [e1|m]; simpl; auto.
Qed.

Lemma load_model_keeps_artifact_witness :
  downloads (load_model offline_env (mkWorld true (Some "keras") None [] [] 0 0)).2
  = 0%nat
  ∧ fs_model_file (load_model offline_env (mkWorld true (Some "keras") None [] [] 0 0)).2
    = Some "keras".
Proof.
  apply (load_model_keeps_artifact offline_env
           (mkWorld true (Some "keras") None [] [] 0 0) "keras").
  reflexivity.
Defined.

Lemma load_model_fills_cache (env : Env) (w w1 : World) (v : option ModelHandle) :
  load_model env w = (Returned v, w1) → resource_cache w1 = Some v.
Proof.
  unfold load_model, cache_resource.
  destruct (resource_cache w) as [v0|] eqn:Hcache.
  - intros [= <- <-]. exact Hcache.
  - destruct (load_model_body_returns env w) as (v' & w' & -> & _).
    intros [= <- <-]. reflexivity.
Qed.

(** X9: What [load_model] returned once it returns at every later call in
    the same process, in whatever environment, and that call downloads
    nothing, deserializes nothing and leaves disk, cache and camera as they
    are: in particular a failed load ([None]) is never tried again, even
    when the file or the network has come back.  (What a later call puts
    on the page is not part of the statement.) *)
Theorem load_model_result_sticks (env env' : Env) (w w1 : World)
                                 (v : option ModelHandle) :
  load_model env w = (Returned v, w1) →
  ∃ w2, load_model env' w1 = (Returned v, w2)
    ∧ machine w2 = machine w1
    ∧ cam_log w2 = cam_log w1.
Proof.
  intros H. apply load_model_fills_cache in H.
  exists w1. unfold load_model, cache_resource. rewrite H. auto.
Qed.

Lemma load_model_result_sticks_witness :
  ∃ w1 w2, load_model offline_env fresh_world = (Returned None, w1)
        ∧ load_model camera_env w1 = (Returned None, w2)
        ∧ machine w2 = machine w1
        ∧ (load_model camera_env (mkWorld true (Some "keras") None [] [] 0 0)).1
          = Returned (Some (stub_model tied_distribution)).
Proof.
  destruct (load_model_result_sticks offline_env camera_env fresh_world
              (load_model offline_env fresh_world).2 None eq_refl)
    as (w2 & Hrun & Hmachine & _).
  exists (load_model offline_env fresh_world).2, w2.
  split; [reflexivity|]. split; [exact Hrun|]. split; [exact Hmachine|].
  reflexivity.
Defined.

(** ** More on the webcam loop *)

Section WebcamRun.
Variable env : Env.
Variable model : ModelHandle.
Variable cap : nat.

(** A turn that does not end the loop reads one frame and shows it,
    labelled with what [predict] says about it. *)
Lemma frame_step_continue (i : nat) (w : World) :
  leaves_loop env model cap i = false →
  ∃ ev, frame_event env model cap i = Some ev
    ∧ frame_step env model cap false i w
      = (Returned false, add_ui [ev] (add_cam [CamRead cap] w)).
Proof.
  unfold frame_step, frame_event, leaves_loop, bind, cam, lift, show, raise, ret.
  destruct (cap_read env cap i) as [e|[frame|]]; try discriminate.
  destruct (preprocess_image frame) as [e|t] eqn:Hpre; try discriminate.
  apply preprocess_image_converts in Hpre as [rgb Hrgb]. rewrite Hrgb.
  destruct (predict model t) as [e|[[class_name confidence] dist]]; try discriminate.
  destruct (stframe_image env i) as [e|]; try discriminate.
  intros _. eexists. split; reflexivity.
Qed.

(** A turn that ends the loop reads once and shows nothing; it ends the
    loop by [break] exactly when the read found the stream exhausted, and
    by an exception otherwise. *)
Lemma frame_step_leave (i : nat) (w : World) :
  leaves_loop env model cap i = true →
  ∃ o, frame_step env model cap false i w = (o, add_cam [CamRead cap] w)
    ∧ o ≠ Returned false ∧ o ≠ Running
    ∧ (o = Returned true ↔ cap_read env cap i = Ok None).
Proof.
  unfold frame_step, leaves_loop, bind, cam, lift, show, raise, ret.
  destruct (cap_read env cap i) as [e|[frame|]];
    [eexists; split; [reflexivity|]; repeat split; discriminate
    | | eexists; split; [reflexivity|]; repeat split; congruence].
  destruct (preprocess_image frame) as [e|t] eqn:Hpre;
    [eexists; split; [reflexivity|]; repeat split; discriminate|].
  apply preprocess_image_converts in Hpre as [rgb Hrgb]. rewrite Hrgb.
  destruct (predict model t) as [e|[[class_name confidence] dist]];
    [eexists; split; [reflexivity|]; repeat split; discriminate|].
  destruct (stframe_image env i) as [e|]; [|discriminate].
  intros _. eexists; split; [reflexivity|]; repeat split; discriminate.
Qed.

Lemma webcam_loop_first_exit (k : nat) :
  ∀ (fuel i : nat) (w : World),
  (∀ j, (j < k)%nat → leaves_loop env model cap (i + j) = false) →
  leaves_loop env model cap (i + k) = true →
  (k < fuel)%nat →
  ∃ o w' evs,
    webcam_loop fuel env model cap false i w = (o, w')
    ∧ o ≠ Running
    ∧ (o = Returned tt ↔ cap_read env cap (i + k) = Ok None)
    ∧ cam_log w' = cam_log w ++ repeat (CamRead cap) (S k)
    ∧ ui w' = ui w ++ evs
    ∧ Forall2 (fun j ev => frame_event env model cap j = Some ev) (seq i k) evs
    ∧ machine w' = machine w.
Proof.
  induction k as [|k IH]; intros fuel i w Hgo Hleave Hfuel;
    (destruct fuel as [|fuel]; [lia|]); cbn [webcam_loop]; unfold bind.
  - rewrite Nat.add_0_r in *.
    destruct (frame_step_leave i w Hleave) as (o & -> & Hnf & Hnr & Hbreak).
    destruct o as [[|]|e|]; try congruence.
    + exists (Returned tt), (add_cam [CamRead cap] w), [].
      split; [reflexivity|]. split; [discriminate|].
      split; [split; [intros _; apply Hbreak; reflexivity | reflexivity]|].
      simpl. rewrite app_nil_r. repeat split. constructor.
    + exists (Raised e), (add_cam [CamRead cap] w), [].
      split; [reflexivity|]. split; [discriminate|].
      split; [split; [discriminate | intros Hx; apply Hbreak in Hx; discriminate]|].
      simpl. rewrite app_nil_r. repeat split. constructor.
  - destruct (frame_step_continue i w) as (ev & Hev & ->).
    { rewrite <- (Nat.add_0_r i). apply Hgo. lia. }
    destruct (IH fuel (S i) (add_ui [ev] (add_cam [CamRead cap] w)))
      as (o & w' & evs & Hloop & Hrun & Hbreak & Hcam & Hui & Hevs & Hmach).
    { intros j Hj. replace (S i + j)%nat with (i + S j)%nat by lia. apply Hgo. lia. }
    { replace (S i + k)%nat with (i + S k)%nat by lia. exact Hleave. }
    { lia. }
    exists o, w', (ev :: evs). split; [exact Hloop|]. split; [exact Hrun|].
    split; [replace (i + S k)%nat with (S i + k)%nat by lia; exact Hbreak|].
    split; [rewrite Hcam; simpl; rewrite <- app_assoc; reflexivity|].
    split; [rewrite Hui; simpl; rewrite <- app_assoc; reflexivity|].
    split; [simpl; constructor; assumption | exact Hmach].
Qed.

(** X10: The run of the webcam session up to the first turn [k] that exhausts
    the stream or raises (stop button not pressed): frames 0 .. k-1 are
    shown, each once, in order and with its own prediction; the camera is
    read k+1 times and then released; the session returns normally exactly
    when turn [k] found the stream exhausted and passes an exception on
    otherwise. *)
Theorem webcam_session_first_exit (fuel k : nat) (w : World) :
  (∀ j, (j < k)%nat → leaves_loop env model cap j = false) →
  leaves_loop env model cap k = true →
  (k < fuel)%nat →
  ∃ o w' evs,
    webcam_session fuel env model cap false w = (o, w')
    ∧ o ≠ Running
    ∧ (o = Returned tt ↔ cap_read env cap k = Ok None)
    ∧ cam_log w' = cam_log w ++ repeat (CamRead cap) (S k) ++ [CamRelease cap]
    ∧ ui w' = ui w ++ evs
    ∧ Forall2 (fun j ev => frame_event env model cap j = Some ev) (seq 0 k) evs.
Proof.
  intros Hgo Hleave Hfuel.
  destruct (webcam_loop_first_exit k fuel 0 w Hgo Hleave Hfuel)
    as (o & w1 & evs & Hloop & Hrun & Hbreak & Hcam & Hui & Hevs & _).
  unfold webcam_session, try_finally, cam. rewrite Hloop.
  exists o, (add_cam [CamRelease cap] w1), evs.
  split; [destruct o as [[]|e|]; [reflexivity | reflexivity | congruence]|].
  split; [exact Hrun|]. split; [exact Hbreak|].
  split; [simpl; rewrite Hcam, <- app_assoc; reflexivity|].
  split; [exact Hui | exact Hevs].
Qed.

(** X11: With the stop button not pressed when the loop is entered, the session
    is still running after [fuel] turns exactly when none of these turns
    exhausted the stream or raised: the tests of [stop_button] in the loop
    never end it.  While it runs, every turn has read a frame and the
    camera has not been released. *)
Theorem webcam_session_running_iff (fuel : nat) (w : World) :
  ((webcam_session fuel env model cap false w).1 = Running
   ↔ ∀ k, (k < fuel)%nat → leaves_loop env model cap k = false)
  ∧ ((webcam_session fuel env model cap false w).1 = Running →
     cam_log (webcam_session fuel env model cap false w).2
     = cam_log w ++ repeat (CamRead cap) fuel).
Proof.
  assert (Hall : (∀ k, (k < fuel)%nat → leaves_loop env model cap k = false) →
                 webcam_session fuel env model cap false w
                 = (Running, (webcam_session fuel env model cap false w).2)
                 ∧ cam_log (webcam_session fuel env model cap false w).2
                   = cam_log w ++ repeat (CamRead cap) fuel).
  { intros Hgo. destruct (webcam_loop_running env model cap fuel 0 w Hgo)
      as (w' & Hloop & Hlog).
    unfold webcam_session, try_finally. rewrite Hloop. auto. }
  assert (Hrun : (webcam_session fuel env model cap false w).1 = Running →
                 ∀ k, (k < fuel)%nat → leaves_loop env model cap k = false).
  { intros Hr k Hk.
    destruct (leaves_loop env model cap k) eqn:Hl; [|reflexivity].
    exfalso. pose proof (webcam_loop_leaves env model cap k fuel 0 w Hk Hl) as Hne.
    unfold webcam_session, try_finally, cam in Hr.
    destruct (webcam_loop fuel env model cap false 0 w) as [[[]|e|] w1];
      simpl in *; congruence. }
  split; [split; [exact Hrun|]|].
  - intros Hgo. destruct (Hall Hgo) as [-> _]. reflexivity.
  - intros Hr. apply Hall, Hrun, Hr.
Qed.
End WebcamRun.

(** The two frames of [camera_env] are classified and shown. *)
Lemma camera_env_frames (j : nat) :
  (j < 2)%nat →
  leaves_loop camera_env (stub_model tied_distribution) 2 j = false.
Proof.
  intros Hj. unfold leaves_loop, camera_env. cbn [cap_read stframe_image].
  apply Nat.ltb_lt in Hj. rewrite Hj. unfold Ok at 1. cbv beta iota.
  destruct (preprocess_image_returns tiny_image eq_refl) as [t ->].
  reflexivity.
Qed.

Lemma webcam_session_first_exit_witness :
  ∃ o w' evs,
    webcam_session 5 camera_env (stub_model tied_distribution) 2 false fresh_world
    = (o, w')
    ∧ o ≠ Running
    ∧ (o = Returned tt ↔ cap_read camera_env 2 2 = Ok None)
    ∧ cam_log w' = cam_log fresh_world ++ repeat (CamRead 2) 3 ++ [CamRelease 2]
    ∧ ui w' = ui fresh_world ++ evs
    ∧ Forall2 (fun j ev => frame_event camera_env (stub_model tied_distribution) 2 j
                           = Some ev) (seq 0 2) evs.
Proof.
  apply (webcam_session_first_exit camera_env (stub_model tied_distribution) 2
           5 2 fresh_world).
  - apply camera_env_frames.
  - reflexivity.
  - lia.
Defined.

Lemma webcam_session_running_iff_witness :
  (webcam_session 2 camera_env (stub_model tied_distribution) 2 false fresh_world).1
  = Running.
Proof.
  apply (proj1 (webcam_session_running_iff camera_env
                  (stub_model tied_distribution) 2 2 fresh_world)).
  apply camera_env_frames.
Defined.

(** ** The session as a whole *)

Lemma load_model_cam_log (env : Env) (w : World) :
  cam_log (load_model env w).2 = cam_log w.
Proof.
  destruct w as [dir file cache u c d s]. run_load_model.
  destruct cache as [v|]; [reflexivity|].
  destruct dir, (os_makedirs env) as [e0|], file as [a|]; simpl;
    try (destruct (gdown_download env d) as [a| |e2]; simpl);
    try (destruct (keras_load_model env a) as [e1|m]; simpl);
    reflexivity.
Qed.

Lemma webcam_session_camera (fuel : nat) (env : Env) (model : ModelHandle)
                            (cap : nat) (stop_button : bool) (w : World) :
  ∃ o w' n,
    webcam_session fuel env model cap stop_button w = (o, w')
    ∧ cam_log w' = cam_log w ++ repeat (CamRead cap) n
                   ++ match o with
                      | Running => []
                      | _ => [CamRelease cap]
                      end.
Proof.
  destruct (webcam_loop_log env model cap stop_button fuel 0 w)
    as (o & w1 & n & Hloop & Hlog).
  unfold webcam_session, try_finally, cam. rewrite Hloop.
  destruct o as [[]|e|]; eexists _, _, n; (split; [reflexivity|]); simpl;
    rewrite Hlog, <- ?app_assoc, ?app_nil_r; reflexivity.
Qed.

Lemma webcam_branch_camera (fuel : nat) (env : Env) (model : ModelHandle) (w : World) :
  ∃ o w' ops,
    webcam_branch fuel env model w = (o, w')
    ∧ cam_log w' = cam_log w ++ ops
    ∧ camera_protocol env o ops
    ∧ (start_webcam_clicked env = false → ops = []).
Proof.
  unfold webcam_branch, bind at 1 2, show.
  set (w0 := add_ui [StButton "Start Webcam"] _).
  assert (Hw0 : cam_log w0 = cam_log w) by reflexivity.
  destruct (start_webcam_clicked env).
  - unfold bind at 1.
    destruct (get_webcam_spec env w0) as (cap & probes & -> & Hcap).
    destruct cap as [idx|].
    + destruct Hcap as (Hlt & Hopen & _ & ->).
      unfold bind at 1, page_call.
      destruct (st_empty_raises env) as [e|] eqn:Hempty.
      { eexists _, _, (failed_probes idx ++ [CamOpen idx true]).
        split; [reflexivity|]. split; [reflexivity|].
        split; [|discriminate]. right. right. right. exists idx, e.
        repeat (split; [solve [auto]|]). reflexivity. }
      unfold show at 1. unfold bind at 1.
      destruct (stop_button_raises env) as [e|] eqn:Hstop.
      { eexists _, _, (failed_probes idx ++ [CamOpen idx true]).
        split; [reflexivity|]. split; [reflexivity|].
        split; [|discriminate]. right. right. right. exists idx, e.
        repeat (split; [solve [auto]|]). reflexivity. }
      unfold show.
      set (w1 := add_ui [StButton "Stop Webcam"] _).
      destruct (webcam_session_camera fuel env model idx (stop_webcam_clicked env) w1)
        as (o & w' & n & -> & Hlog).
      exists o, w', (failed_probes idx ++ [CamOpen idx true] ++ repeat (CamRead idx) n
                     ++ match o with Running => [] | _ => [CamRelease idx] end).
      split; [reflexivity|]. split.
      * rewrite Hlog. subst w1 w0. simpl. rewrite <- !app_assoc. reflexivity.
      * split; [|discriminate]. right. right. left. exists idx, n. auto.
    + destruct Hcap as (Hnone & ->). unfold show.
      eexists _, _, (failed_probes 4). split; [reflexivity|].
      split; [reflexivity|].
      split; [|discriminate]. right. left. auto.
  - exists (Returned tt), w0, []. split; [reflexivity|].
    split; [rewrite Hw0, app_nil_r; reflexivity|].
    split; [left; reflexivity | reflexivity].
Qed.

(** X12: Every run of [main] uses the camera in one of four ways: not at
    all; four probes, all failing; probes up to the first camera that
    opens, then reads from that camera only and, unless the loop is still
    running, exactly one release of it at the end; or probes up to the
    first camera that opens and nothing more - the camera is left open -
    which happens only when [st.empty()] or [st.button("Stop Webcam")]
    (lines 111-112, after [get_webcam] and before the [try]) raises.  In
    upload mode, and when "Start Webcam" was not clicked, the camera is not
    used at all. *)
Theorem main_camera_protocol (fuel : nat) (env : Env) (w : World) :
  ∃ o w' ops,
    main fuel env w = (o, w')
    ∧ cam_log w' = cam_log w ++ ops
    ∧ camera_protocol env o ops
    ∧ (sidebar_radio env = UploadImage ∨ start_webcam_clicked env = false →
       ops = []).
Proof.
  unfold main, bind at 1 2 3, show. fold (title_shown w).
  pose proof (load_model_cam_log env (title_shown w)) as Hload.
  change (cam_log (title_shown w)) with (cam_log w) in Hload.
  destruct (load_model env (title_shown w)) as [[[model|]|e|] w1]; simpl in Hload.
  - unfold bind at 1, show.
    set (w2 := add_ui [StRadio "Select Input Method:"] w1).
    assert (Hw2 : cam_log w2 = cam_log w) by exact Hload.
    destruct (sidebar_radio env).
    + pose proof (preserves_upload_branch cam_log (fun _ _ => eq_refl) env model w2)
        as Hup.
      destruct (upload_branch env model w2) as [o w'] eqn:Hrun. simpl in Hup.
      exists o, w', []. split; [reflexivity|].
      split; [rewrite app_nil_r, Hup; exact Hw2|].
      split; [left; reflexivity | reflexivity].
    + destruct (webcam_branch_camera fuel env model w2)
        as (o & w' & ops & -> & Hlog & Hproto & Hstart).
      exists o, w', ops. split; [reflexivity|].
      split; [rewrite Hlog; f_equal; exact Hw2|].
      split; [exact Hproto|]. intros [Hx|Hx]; [discriminate | auto].
  - eexists _, _, []. split; [reflexivity|].
    split; [simpl; rewrite Hload, app_nil_r; reflexivity|].
    split; [left; reflexivity | reflexivity].
  - eexists _, _, []. split; [reflexivity|].
    split; [rewrite Hload, app_nil_r; reflexivity|].
    split; [left; reflexivity | reflexivity].
  - eexists _, _, []. split; [reflexivity|].
    split; [rewrite Hload, app_nil_r; reflexivity|].
    split; [left; reflexivity | reflexivity].
Qed.

Lemma main_camera_protocol_witness :
  ∃ o w' ops,
    main 3 leaking_env cached_world = (o, w')
    ∧ cam_log w' = cam_log cached_world ++ ops
    ∧ camera_protocol leaking_env o ops
    ∧ (sidebar_radio leaking_env = UploadImage
       ∨ start_webcam_clicked leaking_env = false → ops = []).
Proof. exact (main_camera_protocol 3 leaking_env cached_world). Defined.

(** The camera is opened, then the Stop button cannot be put on the page:
    the exception leaves [main] before the [try] is entered, and the camera
    stays open. *)
Example main_leaves_camera_open :
  let '(o, w) := main 3 leaking_env cached_world in
  o = Raised (StreamlitAPIException "DuplicateWidgetID")
  ∧ cam_log w = [CamOpen 0 true].
Proof. vm_compute. auto. Qed.

Section PreservesCamera.
Context {X : Type} (f : World → X).
Hypothesis f_ui : ∀ evs w, f (add_ui evs w) = f w.
Hypothesis f_cam : ∀ ops w, f (add_cam ops w) = f w.

Lemma preserves_cam (op : CamOp) : preserves f (cam op).
Proof. intros w. apply f_cam. Qed.

Lemma preserves_try_finally {A} (body : M A) (cleanup : M unit) :
  preserves f body → preserves f cleanup → preserves f (try_finally body cleanup).
Proof.
  intros Hb Hc w. unfold try_finally. specialize (Hb w).
  destruct (body w) as [[a|e|] w1]; simpl in *; try exact Hb;
    specialize (Hc w1); destruct (cleanup w1) as [[[]|e'|] w2]; simpl in *;
    congruence.
Qed.

Lemma preserves_get_webcam (env : Env) : preserves f (get_webcam env).
Proof.
  unfold get_webcam. generalize (seq 0 4). intros idxs.
  induction idxs as [|idx rest IH]; simpl.
  - apply preserves_ret.
  - apply preserves_bind; [apply preserves_cam|]. intros _.
    destruct (video_capture_opens env idx); [apply preserves_ret | exact IH].
Qed.

Lemma preserves_frame_step env model cap stop_button i :
  preserves f (frame_step env model cap stop_button i).
Proof.
  unfold frame_step.
  apply preserves_bind; [apply preserves_cam|]. intros _.
  apply preserves_bind; [apply preserves_lift|]. intros [frame|];
    [|apply preserves_ret].
  apply preserves_bind; [apply preserves_lift|]. intros t.
  apply preserves_bind; [apply preserves_lift|]. intros [[name conf] dist].
  apply preserves_bind; [apply preserves_lift|]. intros rgb.
  apply preserves_bind; [|intros _; apply preserves_ret].
  destruct (stframe_image env i);
    [apply preserves_raise | apply preserves_show; exact f_ui].
Qed.

Lemma preserves_webcam_loop env model cap stop_button fuel i :
  preserves f (webcam_loop fuel env model cap stop_button i).
Proof.
  revert i. induction fuel as [|fuel IH]; intros i; simpl;
    (destruct stop_button eqn:Hstop; [apply preserves_ret|]).
  - intros w. reflexivity.
  - apply preserves_bind; [apply preserves_frame_step|].
    intros [|]; [apply preserves_ret | apply IH].
Qed.

Lemma preserves_webcam_branch fuel env model :
  preserves f (webcam_branch fuel env model).
Proof.
  unfold webcam_branch.
  apply preserves_bind; [apply preserves_show; exact f_ui|]. intros _.
  apply preserves_bind; [apply preserves_show; exact f_ui|]. intros _.
  destruct (start_webcam_clicked env); [|apply preserves_ret].
  apply preserves_bind; [apply preserves_get_webcam|]. intros [cap|];
    [|apply preserves_show; exact f_ui].
  apply preserves_bind; [apply preserves_page_call; exact f_ui|]. intros _.
  apply preserves_bind; [apply preserves_page_call; exact f_ui|]. intros _.
  apply preserves_try_finally; [apply preserves_webcam_loop | apply preserves_cam].
Qed.
End PreservesCamera.

(** After [load_model], [main] touches neither the disk nor the cache nor
    the network. *)
Lemma main_machine (fuel : nat) (env : Env) (w : World) :
  machine (main fuel env w).2 = machine (load_model env (title_shown w)).2.
Proof.
  unfold main, bind at 1 2 3, show. fold (title_shown w).
  destruct (load_model env (title_shown w)) as [[[model|]|e|] w1]; try reflexivity.
  unfold bind at 1, show.
  set (w2 := add_ui [StRadio "Select Input Method:"] w1).
  change (machine (_, w1).2) with (machine w2).
  destruct (sidebar_radio env).
  - apply (preserves_upload_branch machine (fun _ _ => eq_refl)).
  - apply (preserves_webcam_branch machine (fun _ _ => eq_refl) (fun _ _ => eq_refl)).
Qed.

(** X13: A run of [main] downloads at most once and deserializes at most once,
    both inside [load_model]; once the cache is filled, a run of [main]
    leaves disk, cache and counters exactly as they were: no file check
    outcome, download or deserialization happens. *)
Theorem main_io_budget (fuel : nat) (env : Env) (w : World) :
  (downloads (main fuel env w).2 ≤ downloads w + 1)%nat
  ∧ (deserializations (main fuel env w).2 ≤ deserializations w + 1)%nat
  ∧ (is_Some (resource_cache w) → machine (main fuel env w).2 = machine w).
Proof.
  pose proof (main_machine fuel env w) as Hm.
  unfold load_model, cache_resource in Hm.
  change (resource_cache (title_shown w)) with (resource_cache w) in Hm.
  destruct (resource_cache w) as [v|] eqn:Hcache.
  - simpl in Hm. unfold machine in Hm. injection Hm as Hdir Hfile Hc Hd Hs.
    split; [simpl in Hd; lia|]. split; [simpl in Hs; lia|].
    intros _. unfold machine. simpl in *. congruence.
  - destruct (load_model_body_returns env (title_shown w))
      as (v & w1 & Hbody & _ & Hd & Hs).
    rewrite Hbody in Hm. simpl in Hm, Hd, Hs. unfold machine in Hm.
    injection Hm as _ _ _ Hd' Hs'.
    split; [lia|]. split; [lia|]. intros [x Hx]. discriminate.
Qed.

Lemma main_io_budget_witness :
  machine (main 3 camera_env cached_world).2 = machine cached_world.
Proof.
  apply (proj2 (proj2 (main_io_budget 3 camera_env cached_world))).
  eexists. reflexivity.
Defined.

(** ** More on the preprocessor *)

Lemma traverse_Forall2 {A B} (f : A → result B) (l : list A) (bs : list B) :
  traverse f l = Ok bs → Forall2 (fun a b => f a = Ok b) l bs.
Proof.
  revert bs. induction l as [|a t IH]; intros bs H; simpl in H.
  - injection H as <-. constructor.
  - apply rbind_Ok in H as (b & Hb & H).
    apply rbind_Ok in H as (bs' & Hbs & H). injection H as <-.
    constructor; auto.
Qed.

Lemma traverse_ext_Forall {A B} (f g : A → result B) (l : list A) :
  Forall (fun a => f a = g a) l → traverse f l = traverse g l.
Proof.
  induction 1 as [|a t Ha _ IH]; simpl; [reflexivity|].
  rewrite Ha, IH. reflexivity.
Qed.

Lemma traverse_map {A B C} (f : B → result C) (g : A → B) (l : list A) :
  traverse f (map g l) = traverse (fun a => f (g a)) l.
Proof.
  induction l as [|a t IH]; simpl; [reflexivity|]. rewrite IH. reflexivity.
Qed.

(** X14: The alpha channel is ignored: preprocessing a picture with four
    channels gives exactly what preprocessing its first three channels
    gives, and those form a valid picture. *)
Theorem preprocess_image_ignores_alpha (img : Image) :
  valid_rgba_image img = true →
  preprocess_image img = preprocess_image (drop_alpha img)
  ∧ valid_image (drop_alpha img) = true.
Proof.
  intros Hvalid. destruct img as [|row0 rows]; [discriminate|].
  unfold valid_rgba_image in Hvalid. apply andb_true_iff in Hvalid as [Hw Hrows].
  rewrite forallb_forall in Hrows.
  assert (Hpx : ∀ row px, In row (row0 :: rows) → In px row →
                length px = 4%nat ∧ Forall byte_range px).
  { intros row px Hrow Hin. specialize (Hrows row Hrow).
    apply andb_true_iff in Hrows as [_ Hall]. rewrite forallb_forall in Hall.
    specialize (Hall px Hin). unfold valid_rgba_pixel in Hall.
    apply andb_true_iff in Hall as [Hlen Hb]. apply Nat.eqb_eq in Hlen.
    split; [exact Hlen|]. apply Forall_forall. intros v Hv.
    rewrite forallb_forall in Hb. apply list_elem_of_In in Hv.
    specialize (Hb v Hv). unfold byte_range. lia. }
  split.
  - unfold preprocess_image. f_equal.
    unfold drop_alpha, cvtColor_BGR2RGB. cbn [map].
    change (map (take 3) row0 :: map (map (take 3)) rows)
      with (map (map (take 3)) (row0 :: rows)).
    rewrite traverse_map. apply traverse_ext_Forall.
    apply Forall_forall. intros row Hrow. apply list_elem_of_In in Hrow.
    rewrite traverse_map. apply traverse_ext_Forall.
    apply Forall_forall. intros px Hin. apply list_elem_of_In in Hin.
    destruct (Hpx row px Hrow Hin) as [Hlen _].
    destruct px as [|b [|g [|r [|a [|? ?]]]]]; try discriminate Hlen.
    reflexivity.
  - unfold drop_alpha, valid_image. cbn [map]. rewrite length_map.
    apply andb_true_iff. split; [exact Hw|].
    change (map (take 3) row0 :: map (map (take 3)) rows)
      with (map (map (take 3)) (row0 :: rows)).
    apply forallb_forall. intros row' Hrow'.
    apply in_map_iff in Hrow' as (row & <- & Hrow).
    pose proof (Hrows row Hrow) as Hr. apply andb_true_iff in Hr as [Hlen _].
    rewrite length_map. apply andb_true_iff. split; [exact Hlen|].
    apply forallb_forall. intros px' Hpx'.
    apply in_map_iff in Hpx' as (px & <- & Hin).
    destruct (Hpx row px Hrow Hin) as [Hl Hb].
    destruct px as [|b [|g [|r [|a [|? ?]]]]]; try discriminate Hl.
    unfold valid_pixel. simpl take. simpl length. simpl Nat.eqb.
    apply forallb_forall. intros v Hv.
    rewrite Forall_forall in Hb.
    assert (Hv' : v ∈ [b; g; r; a]).
    { apply list_elem_of_In. simpl in Hv. simpl. tauto. }
    specialize (Hb v Hv'). unfold byte_range in Hb. lia.
Qed.

Lemma preprocess_image_ignores_alpha_witness :
  preprocess_image tiny_rgba_image = preprocess_image (drop_alpha tiny_rgba_image)
  ∧ valid_image (drop_alpha tiny_rgba_image) = true.
Proof.
  apply (preprocess_image_ignores_alpha tiny_rgba_image). reflexivity.
Defined.

(** ** Stopping the webcam loop *)



Section StopObserved.
Variable env : Env.
Variable model : ModelHandle.
Variable cap : nat.



End StopObserved.


(** ** Channels and positions in the preprocessor *)

Lemma lookup_map_eq {A B} (f : A → B) (l : list A) (i : nat) :
  map f l !! i = option_map f (l !! i).
Proof.
  revert i. induction l as [|a t IH]; intros [|i]; simpl; auto.
Qed.

Lemma lookup_map_Some {A B} (f : A → B) (l : list A) (i : nat) (a : A) :
  l !! i = Some a → map f l !! i = Some (f a).
Proof. intros H. rewrite lookup_map_eq, H. reflexivity. Qed.

Lemma lookup_map_seq {B} (f : nat → B) (n i : nat) :
  (i < n)%nat → map f (seq 0 n) !! i = Some (f i).
Proof.
  intros Hi. apply lookup_map_Some. apply lookup_seq. split; [reflexivity|lia].
Qed.

Lemma Forall2_nth_default {A B} (P : A → B → Prop) (l : list A) (k : list B)
      (d1 : A) (d2 : B) (i : nat) :
  Forall2 P l k → P d1 d2 → P (nth i l d1) (nth i k d2).
Proof.
  intros H Hd. revert i. induction H as [|a b l k Hab _ IH]; intros [|i]; simpl; auto.
Qed.

Lemma Forall2_map_both {A B C D} (P : C → D → Prop) (f : A → C) (g : B → D)
      (l : list A) (k : list B) :
  Forall2 (fun a b => P (f a) (g b)) l k → Forall2 P (map f l) (map g k).
Proof. induction 1; simpl; constructor; auto. Qed.

Lemma Forall2_map_same {A C D} (P : C → D → Prop) (f : A → C) (g : A → D)
      (l : list A) :
  (∀ a, P (f a) (g a)) → Forall2 P (map f l) (map g l).
Proof. intros H. induction l; simpl; constructor; auto. Qed.

Lemma Forall2_compose {A B} (R1 R2 : A → B → Prop) (P : A → A → Prop)
      (Q : B → B → Prop) (l1 l2 : list A) (k1 k2 : list B) :
  (∀ a1 a2 b1 b2, R1 a1 b1 → P a1 a2 → R2 a2 b2 → Q b1 b2) →
  Forall2 R1 l1 k1 → Forall2 P l1 l2 → Forall2 R2 l2 k2 → Forall2 Q k1 k2.
Proof.
  intros HQ H1. revert l2 k2.
  induction H1 as [|a1 b1 l1 k1 Hab _ IH]; intros l2 k2 HP H2.
  - inversion HP; subst. inversion H2; subst. constructor.
  - inversion HP as [|? a2 ? l2' Ha Hl]; subst.
    inversion H2 as [|? b2 ? k2' Hb Hk]; subst.
    constructor; [eapply HQ; eauto | eapply IH; eauto].
Qed.

(** After the conversion, channel [c] holds what channel [2 - c] held. *)
Lemma bgr2rgb_pixel_swap (px px' : list Z) (c : nat) :
  bgr2rgb_pixel px = Ok px' → (c < 3)%nat → px' !! c = px !! (2 - c)%nat.
Proof.
  intros H Hc.
  destruct px as [|b [|g [|r [|a [|? ?]]]]]; simpl in H; try discriminate;
    injection H as <-; destruct c as [|[|[|c]]]; try lia; reflexivity.
Qed.

Lemma cvtColor_same_channel (img1 img2 rgb1 rgb2 : Image) (c : nat) :
  (c < 3)%nat →
  same_channel (2 - c) img1 img2 →
  cvtColor_BGR2RGB img1 = Ok rgb1 →
  cvtColor_BGR2RGB img2 = Ok rgb2 →
  same_channel c rgb1 rgb2.
Proof.
  intros Hc Hsame H1 H2. unfold cvtColor_BGR2RGB in H1, H2.
  destruct img1 as [|r1 rs1]; [discriminate|].
  destruct img2 as [|r2 rs2]; [discriminate|].
  apply traverse_Forall2 in H1, H2.
  eapply Forall2_compose; [|exact H1|exact Hsame|exact H2].
  intros row1 row2 row1' row2' Hr1 Hrows Hr2.
  apply traverse_Forall2 in Hr1, Hr2.
  eapply Forall2_compose; [|exact Hr1|exact Hrows|exact Hr2].
  intros px1 px2 px1' px2' Hp1 Hpx Hp2. cbv beta in Hpx.
  rewrite (bgr2rgb_pixel_swap px1 px1' c Hp1 Hc),
    (bgr2rgb_pixel_swap px2 px2' c Hp2 Hc).
  exact Hpx.
Qed.

(** Two pictures that agree on a channel are read alike on that channel,
    inside and outside. *)
Lemma pixel_at_same_channel (rgb1 rgb2 : Image) (c : nat) (y x : Z) :
  same_channel c rgb1 rgb2 → pixel_at rgb1 y x c = pixel_at rgb2 y x c.
Proof.
  intros Hsame. unfold pixel_at. f_equal. rewrite !(nth_lookup _ c).
  f_equal. apply (Forall2_nth_default (fun px1 px2 : list Z => px1 !! c = px2 !! c));
    [|reflexivity].
  apply (Forall2_nth_default
           (Forall2 (fun px1 px2 : list Z => px1 !! c = px2 !! c)));
    [exact Hsame | constructor].
Qed.

(** [resize] treats two pictures of one shape that agree on a channel
    alike on that channel. *)
Lemma resize_same_channel (rgb1 rgb2 : Image) (c out_h out_w : nat) :
  same_channel c rgb1 rgb2 →
  length (hd [] (hd [] rgb1)) = length (hd [] (hd [] rgb2)) →
  match resize rgb1 out_h out_w, resize rgb2 out_h out_w with
  | inr out1, inr out2 =>
      Forall2 (Forall2 (fun px1 px2 : list Q => px1 !! c = px2 !! c)) out1 out2
  | inl _, inl _ => True
  | _, _ => False
  end.
Proof.
  intros Hsame Hch.
  assert (Hh : length rgb1 = length rgb2) by (eapply Forall2_length; exact Hsame).
  assert (Hw : length (hd [] rgb1) = length (hd [] rgb2)).
  { destruct Hsame as [|r1 r2 rs1 rs2 Hr _]; [reflexivity|].
    simpl. eapply Forall2_length. exact Hr. }
  unfold resize. rewrite <- Hh, <- Hw, <- Hch.
  destruct ((length rgb1 =? 0)%nat || (length (hd [] rgb1) =? 0)%nat); [exact I|].
  apply Forall2_map_same. intros y.
  apply Forall2_map_same. intros x.
  rewrite !lookup_map_eq.
  destruct (seq 0 (length (hd [] (hd [] rgb1))) !! c) as [c'|] eqn:Hc; [|reflexivity].
  apply lookup_seq in Hc as [-> _]. simpl.
  rewrite !(pixel_at_same_channel rgb1 rgb2 c _ _ Hsame). reflexivity.
Qed.

(** X16: Colour channels do not mix: output channel [c] (0 red, 1 green,
    2 blue) of [preprocess_image] depends on input channel [2 - c] only
    (OpenCV's order is blue, green, red).  Two valid pictures of one shape
    that agree everywhere on channel [2 - c] give tensors that agree
    everywhere on channel [c], whatever their other channels hold. *)
Theorem preprocess_image_channel_independent (img1 img2 : Image) (c : nat) :
  valid_image img1 = true →
  valid_image img2 = true →
  (c < 3)%nat →
  same_channel (2 - c) img1 img2 →
  ∃ t1 t2,
    preprocess_image img1 = Ok t1
    ∧ preprocess_image img2 = Ok t2
    ∧ same_channel_tensor c t1 t2.
Proof.
  intros Hv1 Hv2 Hc Hsame.
  destruct (preprocess_image_returns img1 Hv1) as [t1 Ht1].
  destruct (preprocess_image_returns img2 Hv2) as [t2 Ht2].
  exists t1, t2. split; [exact Ht1|]. split; [exact Ht2|].
  unfold preprocess_image in Ht1, Ht2.
  apply rbind_Ok in Ht1 as (rgb1 & Hrgb1 & Ht1).
  apply rbind_Ok in Ht1 as (out1 & Hout1 & Ht1).
  apply rbind_Ok in Ht2 as (rgb2 & Hrgb2 & Ht2).
  apply rbind_Ok in Ht2 as (out2 & Hout2 & Ht2).
  assert (Hrgb : same_channel c rgb1 rgb2)
    by (eapply cvtColor_same_channel; eauto).
  assert (Hch : length (hd [] (hd [] rgb1)) = length (hd [] (hd [] rgb2))).
  { destruct (cvtColor_valid img1 Hv1) as (rgb1' & Hrgb1' & Hl1 & Hrows1).
    destruct (cvtColor_valid img2 Hv2) as (rgb2' & Hrgb2' & Hl2 & Hrows2).
    assert (rgb1' = rgb1) as -> by (unfold Ok in *; congruence).
    assert (rgb2' = rgb2) as -> by (unfold Ok in *; congruence).
    destruct (valid_image_first_row img1 Hv1) as [_ Hw1].
    destruct (valid_image_first_row img2 Hv2) as [_ Hw2].
    destruct rgb1 as [|r1 rs1], rgb2 as [|r2 rs2]; try reflexivity;
      try (inversion Hrgb; fail).
    inversion Hrows1 as [|? ? [Hl1' Hp1] _]; subst.
    inversion Hrows2 as [|? ? [Hl2' Hp2] _]; subst.
    destruct r1 as [|p1 ps1]; [simpl in Hl1'; lia|].
    destruct r2 as [|p2 ps2]; [simpl in Hl2'; lia|].
    inversion Hp1 as [|? ? [Hc1 _] _]; subst.
    inversion Hp2 as [|? ? [Hc2 _] _]; subst.
    simpl. congruence. }
  pose proof (resize_same_channel rgb1 rgb2 c 224 224 Hrgb Hch) as Hres.
  rewrite Hout1, Hout2 in Hres. unfold Ok in Hres.
  assert (t1 = [map (map (map (fun v => (v / 255)%Q))) out1]) as ->
    by (unfold Ok in Ht1; congruence).
  assert (t2 = [map (map (map (fun v => (v / 255)%Q))) out2]) as ->
    by (unfold Ok in Ht2; congruence).
  constructor; [|constructor].
  apply Forall2_map_both. eapply Forall2_impl; [exact Hres|].
  intros row1 row2 Hrow. apply Forall2_map_both.
  eapply Forall2_impl; [exact Hrow|].
  intros px1 px2 Hpx. cbv beta in *. rewrite !lookup_map_eq, Hpx. reflexivity.
Qed.

Lemma preprocess_image_channel_independent_witness :
  ∃ t1 t2,
    preprocess_image bluish_image = Ok t1
    ∧ preprocess_image bluish_image' = Ok t2
    ∧ same_channel_tensor 2 t1 t2.
Proof.
  apply (preprocess_image_channel_independent bluish_image bluish_image' 2).
  - reflexivity.
  - reflexivity.
  - lia.
  - unfold same_channel, bluish_image, bluish_image'.
    repeat (constructor; [repeat (constructor; [reflexivity|]); constructor|]).
    constructor.
Defined.

(** At equal input and output size every output index reads its own input
    index and no other. *)
Lemma interpolation_same_size (n i : nat) :
  (i < n)%nat →
  let wgt := compute_interpolation_weight (Z.of_nat n)
               (inject_Z (Z.of_nat n) / inject_Z (Z.of_nat n)) i in
  lower wgt = Z.of_nat i ∧ upper wgt = Z.of_nat i.
Proof.
  intros Hn. unfold compute_interpolation_weight. cbn [lower upper].
  assert (Hnq : ~ (inject_Z (Z.of_nat n) == 0)%Q).
  { change 0%Q with (inject_Z 0). rewrite inject_Z_injective. lia. }
  assert (Hin : (half_pixel_scaler i (inject_Z (Z.of_nat n) / inject_Z (Z.of_nat n))
                 == inject_Z (Z.of_nat i))%Q).
  { unfold half_pixel_scaler. field. exact Hnq. }
  rewrite (Qfloor_comp _ _ Hin), (Qceiling_comp _ _ Hin), Qfloor_Z, Qceiling_Z.
  lia.
Qed.

Lemma pixel_at_lookup (img : Image) (y x c : nat)
      (row : list (list Z)) (px : list Z) (v : Z) :
  img !! y = Some row → row !! x = Some px → px !! c = Some v →
  pixel_at img (Z.of_nat y) (Z.of_nat x) c = inject_Z v.
Proof.
  intros Hrow Hpx Hv. unfold pixel_at. rewrite !Nat2Z.id.
  rewrite (nth_lookup_Some _ _ [] _ Hrow), (nth_lookup_Some _ _ [] _ Hpx),
    (nth_lookup_Some _ _ 0%Z _ Hv).
  reflexivity.
Qed.

(** What [preprocess_image] puts at row [y], column [x], channel [c] for a
    valid picture that is already 224 by 224: a value made of the picture's
    value [v] at the same row and column in channel [2 - c], and of nothing
    else of the picture. *)
Lemma preprocess_image_at (img : Image) (y x c : nat)
      (row : list (list Z)) (px : list Z) (v : Z) :
  valid_image img = true →
  length img = 224%nat →
  length (hd [] img) = 224%nat →
  (c < 3)%nat →
  img !! y = Some row → row !! x = Some px → px !! (2 - c)%nat = Some v →
  ∃ t, preprocess_image img = Ok t
    ∧ tensor_at t y x c
      = Some (compute_lerp (inject_Z v) (inject_Z v) (inject_Z v) (inject_Z v)
                (lerp (compute_interpolation_weight 224
                         (inject_Z 224 / inject_Z 224) x))
                (lerp (compute_interpolation_weight 224
                         (inject_Z 224 / inject_Z 224) y))
              / 255)%Q.
Proof.
  intros Hvalid Hh Hw Hc Hrow Hpx Hv.
  destruct (cvtColor_valid img Hvalid) as (rgb & Hrgb & Hlen & Hrows).
  rewrite Hw in Hrows.
  assert (Hw' : length (hd [] rgb) = 224%nat).
  { destruct rgb as [|r0 rs]; [simpl in Hlen; lia|].
    inversion Hrows as [|? ? [Hl _] _]; subst. exact Hl. }
  assert (Hch : length (hd [] (hd [] rgb)) = 3%nat).
  { destruct rgb as [|r0 rs]; [simpl in Hlen; lia|].
    destruct r0 as [|p0 ps]; [simpl in Hw'; lia|].
    inversion Hrows as [|? ? [_ Hr0] _]; subst.
    inversion Hr0 as [|? ? [Hp _] _]; subst. exact Hp. }
  assert (Hrel : Forall2 (Forall2 (fun px px' => bgr2rgb_pixel px = Ok px')) img rgb).
  { unfold cvtColor_BGR2RGB in Hrgb. destruct img as [|row0 rows]; [discriminate|].
    apply traverse_Forall2 in Hrgb.
    eapply Forall2_impl; [exact Hrgb|]. intros r r' Hr'.
    apply traverse_Forall2. exact Hr'. }
  assert (Hy : (y < 224)%nat) by (apply lookup_lt_Some in Hrow; lia).
  destruct (Forall2_lookup_l _ _ _ _ _ Hrel Hrow) as (row' & Hrow' & Hrr).
  destruct (Forall2_lookup_l _ _ _ _ _ Hrr Hpx) as (px' & Hpx' & Hpp).
  assert (Hx : (x < 224)%nat).
  { apply lookup_lt_Some in Hpx'. rewrite Forall_forall in Hrows.
    destruct (Hrows row') as [Hl _]; [eapply list_elem_of_lookup_2; eauto | lia]. }
  assert (Hv' : px' !! c = Some v).
  { rewrite (bgr2rgb_pixel_swap px px' c Hpp Hc). exact Hv. }
  destruct (interpolation_same_size 224 y Hy) as [Hly Huy].
  destruct (interpolation_same_size 224 x Hx) as [Hlx Hux].
  change (Z.of_nat 224) with 224%Z in Hly, Huy, Hlx, Hux.
  eexists. split.
  - unfold preprocess_image. rewrite Hrgb. simpl rbind.
    unfold resize. rewrite Hlen, Hh, Hw', Hch. simpl orb. cbv iota.
    reflexivity.
  - unfold tensor_at. cbn [lookup list_lookup].
    rewrite (lookup_map_Some _ _ y _ (lookup_map_seq _ 224 y Hy)).
    rewrite (lookup_map_Some _ _ x _ (lookup_map_seq _ 224 x Hx)).
    rewrite (lookup_map_Some _ _ c _ (lookup_map_seq _ 3 c Hc)).
    change (Z.of_nat 224) with 224%Z.
    rewrite Hly, Huy, Hlx, Hux.
    rewrite (pixel_at_lookup rgb y x c row' px' v Hrow' Hpx' Hv').
    reflexivity.
Qed.

(** X17: A valid picture that is already 224 by 224 is not blended by the
    resizing: what [preprocess_image] puts at row [y], column [x], channel
    [c] depends only on the picture's value at the same row and column in
    channel [2 - c].  Two such pictures that agree at that one place give
    tensors that agree at (0, y, x, c), whatever they hold elsewhere. *)
Theorem preprocess_image_local_at_target_size
        (img1 img2 : Image) (y x c : nat)
        (row1 row2 : list (list Z)) (px1 px2 : list Z) (v : Z) :
  valid_image img1 = true → valid_image img2 = true →
  length img1 = 224%nat → length (hd [] img1) = 224%nat →
  length img2 = 224%nat → length (hd [] img2) = 224%nat →
  (c < 3)%nat →
  img1 !! y = Some row1 → row1 !! x = Some px1 → px1 !! (2 - c)%nat = Some v →
  img2 !! y = Some row2 → row2 !! x = Some px2 → px2 !! (2 - c)%nat = Some v →
  ∃ t1 t2 q,
    preprocess_image img1 = Ok t1
    ∧ preprocess_image img2 = Ok t2
    ∧ tensor_at t1 y x c = Some q
    ∧ tensor_at t2 y x c = Some q.
Proof.
  intros Hv1 Hv2 Hh1 Hw1 Hh2 Hw2 Hc Hr1 Hp1 Hc1 Hr2 Hp2 Hc2.
  destruct (preprocess_image_at img1 y x c row1 px1 v Hv1 Hh1 Hw1 Hc Hr1 Hp1 Hc1)
    as (t1 & Ht1 & Hat1).
  destruct (preprocess_image_at img2 y x c row2 px2 v Hv2 Hh2 Hw2 Hc Hr2 Hp2 Hc2)
    as (t2 & Ht2 & Hat2).
  exists t1, t2. eexists. repeat split; eassumption.
Qed.

Lemma preprocess_image_local_at_target_size_witness :
  ∃ t1 t2 q,
    preprocess_image square_image = Ok t1
    ∧ preprocess_image square_image' = Ok t2
    ∧ tensor_at t1 5 9 2 = Some q
    ∧ tensor_at t2 5 9 2 = Some q.
Proof.
  apply (preprocess_image_local_at_target_size square_image square_image' 5 9 2
           (repeat [7; 7; 7]%Z 224) (repeat [7; 100; 200]%Z 224)
           [7; 7; 7]%Z [7; 100; 200]%Z 7%Z);
    solve [vm_compute; reflexivity | lia].
Defined.

(** ** Errors of the upload branch *)

(** X18: Nothing in [main] catches what the upload branch raises: with the
    model loaded and upload mode chosen, an upload that cannot be decoded,
    or a valid picture on which the prediction fails, makes [main] end with
    that very exception, and no predicted class is on the page. *)
Theorem main_upload_error_propagates
        (fuel : nat) (env : Env) (w w1 : World) (model : ModelHandle)
        (opened : result Image) (e : exn) :
  load_model env (title_shown w) = (Returned (Some model), w1) →
  sidebar_radio env = UploadImage →
  file_uploader env = Some opened →
  (opened = Raise e
   ∨ (∃ img, opened = Ok img
        ∧ valid_image img = true
        ∧ ∀ t, preprocess_image img = Ok t → predict model t = Raise e)) →
  ∃ w', main fuel env w = (Raised e, w')
    ∧ ∀ class_name, StPredictedClass class_name ∉ drop (length (ui w1)) (ui w').
Proof.
  intros Hload Hradio Hfile Hcause.
  unfold main, bind at 1 2 3, show. fold (title_shown w). rewrite Hload.
  unfold bind at 1, show. rewrite Hradio.
  unfold upload_branch, bind at 1, show. rewrite Hfile.
  destruct Hcause as [->|(img & -> & Hvalid & Hpred)].
  - eexists. split; [reflexivity|]. intros name. simpl.
    rewrite <- !app_assoc, drop_app_length. intros Hin.
    repeat (apply elem_of_cons in Hin as [Hin|Hin]; [discriminate|]).
    inversion Hin.
  - destruct (preprocess_image_returns img Hvalid) as [t Hpre].
    specialize (Hpred t Hpre).
    unfold bind, lift, show. unfold Ok at 1. cbv beta iota. rewrite Hpre.
    unfold Ok at 1. cbv beta iota. rewrite Hpred.
    eexists. split; [reflexivity|]. intros name. simpl.
    rewrite <- !app_assoc, drop_app_length. intros Hin.
    repeat (apply elem_of_cons in Hin as [Hin|Hin]; [discriminate|]).
    inversion Hin.
Qed.

Lemma main_upload_error_propagates_witness :
  ∃ w', main 0 broken_upload_env cached_world
        = (Raised (OSError "cannot identify image file"), w').
Proof.
  destruct (main_upload_error_propagates 0 broken_upload_env
              cached_world (title_shown cached_world)
              (stub_model tied_distribution)
              (Raise (OSError "cannot identify image file"))
              (OSError "cannot identify image file"))
    as (w' & Hrun & _).
  - reflexivity.
  - reflexivity.
  - reflexivity.
  - left. reflexivity.
  - exists w'. exact Hrun.
Defined.
